(** * Snake game: the simulation core of [GameCanvas]

    The repository holds two copies of one React component, [GameCanvas]:
    - [src/components/GameCanvas.tsx]: grid 30 x 20, 10 points per food,
      a one-cell snake after reset, keyboard only;
    - the second copy (grid 40 x 25, 50 points per food, a three-cell snake
      after reset, pause, touch and pointer controls).

    This development embeds the game logic of both copies: the state cells
    ([useState]), the mutable refs ([useRef]), the functions [spawnFood],
    [activatePowerUp], [resetGame], [gameOver], [togglePause],
    [handleDirectionChange], [handleKeyDown] and the movement update of
    [loop].  Drawing and sound are left out: they read the state and never
    write it.  Time is left out as well: the test
    [timeSinceLastRender > speedRef.current] selects the animation frames at
    which the movement update runs, and the timer of [activatePowerUp]
    fires at some later moment; both are events here.

    Grid coordinates and scores are JavaScript numbers that only ever hold
    small integers; they are modelled as [Z].  The results of
    [Math.random()] are binary64 values and are modelled as such, with the
    IEEE 754 multiplication and comparison of [SpecFloat]. *)

From Stdlib Require Import ZArith List Bool Lia.
From Stdlib Require Import SpecFloat.
Import ListNotations.
Local Open Scope Z_scope.

(** ** JavaScript numbers used by [spawnFood] *)

Module Number.

Definition prec : Z := 53.
Definition emax : Z := 1024.

(** The multiplication [a * b] of two numbers. *)
Definition mul (a b : spec_float) : spec_float := SFmul prec emax a b.

(** The comparison [a > b]. *)
Definition gt (a b : spec_float) : bool := SFltb b a.

(** The number denoted by an integer constant of the program. *)
Definition of_Z (z : Z) : spec_float := binary_normalize prec emax z 0 false.

(** [Math.floor], read as an integer.  On NaN and the infinities
    [Math.floor] returns its argument, which is no integer; the engine only
    applies it to products of a number below 1 with a grid dimension, which
    are [finite] (see [floor_mul_random]). *)
Definition floor (a : spec_float) : Z :=
  match a with
  | S754_finite s m e =>
      let v := if s then Z.neg m else Z.pos m in
      if 0 <=? e then v * 2 ^ e else v / 2 ^ (- e)
  | _ => 0
  end.

(** A zero or a finite number: neither NaN nor an infinity. *)
Definition finite (a : spec_float) : bool :=
  match a with
  | S754_zero _ | S754_finite _ _ _ => true
  | _ => false
  end.

Definition one : spec_float := S754_finite false 4503599627370496 (-52).

(** The literals [0.85] and [0.70]: the binary64 values nearest to the
    decimals (see [literals_nearest]). *)
Definition lit_0_85 : spec_float := S754_finite false 7656119366529843 (-53).
Definition lit_0_70 : spec_float := S754_finite false 6305039478318694 (-53).

(** What [Math.random()] may return: a binary64 value with positive sign,
    at least 0 and below 1. *)
Definition is_random (r : spec_float) : bool :=
  valid_binary prec emax r &&
  match r with
  | S754_zero false => true
  | S754_finite false _ _ => SFltb r one
  | _ => false
  end.

(** A positive integer constant that binary64 holds exactly as a normal
    number: what [GRID_WIDTH] and [GRID_HEIGHT] are. *)
Definition exact_dim (n : Z) : bool :=
  match of_Z n with
  | S754_finite false m e =>
      valid_binary prec emax (of_Z n) && (4503599627370496 <=? Z.pos m)
      && (e <=? 0) && (Z.pos m =? n * 2 ^ (- e)) && (0 <? n)
  | _ => false
  end.

(** [exceeds r num den]: the value of [r], a number [m * 2^e] with
    [e <= 0] or zero, is greater than the fraction [num / den] in exact
    arithmetic. *)
Definition exceeds (r : spec_float) (num den : Z) : Prop :=
  match r with
  | S754_finite false m e => num * 2 ^ (- e) < den * Z.pos m
  | _ => False
  end.

End Number.

(** ** Data model *)

Record Point := mkPoint { x : Z; y : Z }.

Inductive GameState := START | PLAYING | PAUSED | GAME_OVER.

(** [type FoodType = 'NORMAL' | 'GHOST' | 'WRAP'] *)
Inductive FoodType := NORMAL | GHOST | WRAP.

(** [type PowerUpType = 'GHOST' | 'WRAP' | null] *)
Inductive PowerUpType := PowerGHOST | PowerWRAP | null.

Record Food := mkFood { food_x : Z; food_y : Z; food_type : FoodType }.

(** The two copies of the component: [Neon] is
    [src/components/GameCanvas.tsx], [Dashboard] the copy with the pause and
    the touch controls. *)
Inductive Variant := Neon | Dashboard.

Definition GRID_WIDTH (v : Variant) : Z :=
  match v with Neon => 30 | Dashboard => 40 end.

Definition GRID_HEIGHT (v : Variant) : Z :=
  match v with Neon => 20 | Dashboard => 25 end.

(** The argument of [setScore(s => s + ...)] in [loop]. *)
Definition FOOD_POINTS (v : Variant) : Z :=
  match v with Neon => 10 | Dashboard => 50 end.

(** The body [resetGame] installs. *)
Definition RESET_SNAKE (v : Variant) : list Point :=
  match v with
  | Neon => [mkPoint 10 10]
  | Dashboard => [mkPoint 5 10; mkPoint 4 10; mkPoint 3 10]
  end.

(** The values of the four state variables as one render of the component
    sees them.  Every closure created in a render ([gameOver], the effect
    that defines [loop], ...) reads these values and not later ones. *)
Record Render := mkRender {
  r_gameState : GameState;
  r_score : Z;
  r_highScore : Z;
  r_activePowerUp : PowerUpType
}.

(** The whole state of a mounted component. *)
Record World := mkWorld {
  (* useState cells: the current values *)
  gameState : GameState;
  score : Z;
  highScore : Z;
  activePowerUp : PowerUpType;
  (* useRef cells *)
  snakeRef : list Point;
  directionRef : Point;
  nextDirectionRef : Point;
  foodRef : Food;
  (* a callback scheduled by [activatePowerUp] is pending *)
  powerUpTimeout : bool;
  (* the entry 'neon-snake-high-score' of localStorage *)
  localStorage : option Z;
  (* calls of [confetti] so far *)
  confetti : nat;
  (* the render whose game-loop effect is installed: [loop] and the
     [gameOver] it calls read the state variables of this render *)
  loopRender : Render
}.

(** The three successive results of [Math.random()] in [spawnFood]. *)
Record Draws := mkDraws {
  rand : spec_float;      (* const rand = Math.random() *)
  rand_x : spec_float;    (* x: Math.floor(Math.random() * GRID_WIDTH) *)
  rand_y : spec_float     (* y: Math.floor(Math.random() * GRID_HEIGHT) *)
}.

Inductive Key := ArrowUp | ArrowDown | ArrowLeft | ArrowRight | Space | OtherKey.

(** The four literal arguments handed to [handleDirectionChange]. *)
Inductive Dir := Up | Down | Left | Right.

(** What one movement update of [loop] does: it reaches the end of the
    update ([Moved], with whether the food was eaten), leaves through
    [gameOver(); return] ([Died]), or reads [head.x] of an empty array
    ([TypeError]). *)
Inductive StepResult := Moved (grew : bool) | Died | TypeError.

(** ** Setters *)

Definition setGameState (g : GameState) (w : World) : World :=
  mkWorld g (score w) (highScore w) (activePowerUp w) (snakeRef w)
    (directionRef w) (nextDirectionRef w) (foodRef w) (powerUpTimeout w)
    (localStorage w) (confetti w) (loopRender w).

Definition setScore (f : Z -> Z) (w : World) : World :=
  mkWorld (gameState w) (f (score w)) (highScore w) (activePowerUp w)
    (snakeRef w) (directionRef w) (nextDirectionRef w) (foodRef w)
    (powerUpTimeout w) (localStorage w) (confetti w) (loopRender w).

Definition setHighScore (h : Z) (w : World) : World :=
  mkWorld (gameState w) (score w) h (activePowerUp w) (snakeRef w)
    (directionRef w) (nextDirectionRef w) (foodRef w) (powerUpTimeout w)
    (localStorage w) (confetti w) (loopRender w).

Definition setActivePowerUp (p : PowerUpType) (w : World) : World :=
  mkWorld (gameState w) (score w) (highScore w) p (snakeRef w)
    (directionRef w) (nextDirectionRef w) (foodRef w) (powerUpTimeout w)
    (localStorage w) (confetti w) (loopRender w).

Definition set_snakeRef (s : list Point) (w : World) : World :=
  mkWorld (gameState w) (score w) (highScore w) (activePowerUp w) s
    (directionRef w) (nextDirectionRef w) (foodRef w) (powerUpTimeout w)
    (localStorage w) (confetti w) (loopRender w).

Definition set_directionRef (d : Point) (w : World) : World :=
  mkWorld (gameState w) (score w) (highScore w) (activePowerUp w)
    (snakeRef w) d (nextDirectionRef w) (foodRef w) (powerUpTimeout w)
    (localStorage w) (confetti w) (loopRender w).

Definition set_nextDirectionRef (d : Point) (w : World) : World :=
  mkWorld (gameState w) (score w) (highScore w) (activePowerUp w)
    (snakeRef w) (directionRef w) d (foodRef w) (powerUpTimeout w)
    (localStorage w) (confetti w) (loopRender w).

Definition set_foodRef (f : Food) (w : World) : World :=
  mkWorld (gameState w) (score w) (highScore w) (activePowerUp w)
    (snakeRef w) (directionRef w) (nextDirectionRef w) f (powerUpTimeout w)
    (localStorage w) (confetti w) (loopRender w).

Definition set_powerUpTimeout (b : bool) (w : World) : World :=
  mkWorld (gameState w) (score w) (highScore w) (activePowerUp w)
    (snakeRef w) (directionRef w) (nextDirectionRef w) (foodRef w) b
    (localStorage w) (confetti w) (loopRender w).

Definition localStorage_setItem (n : Z) (w : World) : World :=
  mkWorld (gameState w) (score w) (highScore w) (activePowerUp w)
    (snakeRef w) (directionRef w) (nextDirectionRef w) (foodRef w)
    (powerUpTimeout w) (Some n) (confetti w) (loopRender w).

Definition fire_confetti (w : World) : World :=
  mkWorld (gameState w) (score w) (highScore w) (activePowerUp w)
    (snakeRef w) (directionRef w) (nextDirectionRef w) (foodRef w)
    (powerUpTimeout w) (localStorage w) (S (confetti w)) (loopRender w).

Definition set_loopRender (r : Render) (w : World) : World :=
  mkWorld (gameState w) (score w) (highScore w) (activePowerUp w)
    (snakeRef w) (directionRef w) (nextDirectionRef w) (foodRef w)
    (powerUpTimeout w) (localStorage w) (confetti w) r.

(** ** Comparisons *)

Definition GameState_eqb (a b : GameState) : bool :=
  match a, b with
  | START, START | PLAYING, PLAYING | PAUSED, PAUSED | GAME_OVER, GAME_OVER => true
  | _, _ => false
  end.

Definition PowerUpType_eqb (a b : PowerUpType) : bool :=
  match a, b with
  | PowerGHOST, PowerGHOST | PowerWRAP, PowerWRAP | null, null => true
  | _, _ => false
  end.

(** [a.x === b.x && a.y === b.y] *)
Definition samePoint (a b : Point) : bool := (x a =? x b) && (y a =? y b).

(** [newHead.x === foodRef.current.x && newHead.y === foodRef.current.y] *)
Definition onFood (a : Point) (f : Food) : bool :=
  (x a =? food_x f) && (y a =? food_y f).

(** ** Game logic *)

(** The object [newFood] built by [spawnFood]: the kind is drawn first,
    then the column, then the row. *)
Definition newFood (v : Variant) (d : Draws) : Food :=
  let type :=
    if Number.gt (rand d) Number.lit_0_85 then GHOST
    else if Number.gt (rand d) Number.lit_0_70 then WRAP
    else NORMAL in
  mkFood (Number.floor (Number.mul (rand_x d) (Number.of_Z (GRID_WIDTH v))))
         (Number.floor (Number.mul (rand_y d) (Number.of_Z (GRID_HEIGHT v))))
         type.

(** [spawnFood]: nothing of the snake is read. *)
Definition spawnFood (v : Variant) (d : Draws) (w : World) : World :=
  set_foodRef (newFood v d) w.

(** [activatePowerUp]: a new activation replaces the effect and restarts
    the timer. *)
Definition activatePowerUp (t : PowerUpType) (w : World) : World :=
  match t with
  | null => w
  | _ => set_powerUpTimeout true (setActivePowerUp t w)
  end.

Definition resetGame (v : Variant) (d : Draws) (w : World) : World :=
  let w := set_snakeRef (RESET_SNAKE v) w in
  let w := set_directionRef (mkPoint 1 0) w in
  let w := set_nextDirectionRef (mkPoint 1 0) w in
  let w := setScore (fun _ => 0) w in
  let w := setGameState PLAYING w in
  let w := setActivePowerUp null w in
  let w := spawnFood v d w in
  set_powerUpTimeout false w.

(** [gameOver], as created by the render [r]: [score] and [highScore] are
    the variables of that render. *)
Definition gameOver (r : Render) (w : World) : World :=
  let w := setGameState GAME_OVER w in
  if r_score r >? r_highScore r then
    fire_confetti (localStorage_setItem (r_score r) (setHighScore (r_score r) w))
  else w.

(** [togglePause] (second copy only). *)
Definition togglePause (w : World) : World :=
  match gameState w with
  | PLAYING => setGameState PAUSED w
  | PAUSED => setGameState PLAYING w
  | _ => w
  end.

Definition vector (d : Dir) : Point :=
  match d with
  | Up => mkPoint 0 (-1)
  | Down => mkPoint 0 1
  | Left => mkPoint (-1) 0
  | Right => mkPoint 1 0
  end.

(** [handleDirectionChange] (second copy). *)
Definition handleDirectionChange (newDir : Point) (w : World) : World :=
  let currentDir := directionRef w in
  if negb (x newDir =? 0) && negb (x currentDir =? 0) then w
  else if negb (y newDir =? 0) && negb (y currentDir =? 0) then w
  else set_nextDirectionRef newDir w.

(** [handleKeyDown] of [src/components/GameCanvas.tsx]: four independent
    tests against the direction read once. *)
Definition handleKeyDown_Neon (k : Key) (w : World) : World :=
  if negb (GameState_eqb (gameState w) PLAYING) then w
  else
    let currentDir := directionRef w in
    let w :=
      match k with
      | ArrowUp => if y currentDir =? 0 then set_nextDirectionRef (mkPoint 0 (-1)) w else w
      | _ => w
      end in
    let w :=
      match k with
      | ArrowDown => if y currentDir =? 0 then set_nextDirectionRef (mkPoint 0 1) w else w
      | _ => w
      end in
    let w :=
      match k with
      | ArrowLeft => if x currentDir =? 0 then set_nextDirectionRef (mkPoint (-1) 0) w else w
      | _ => w
      end in
    match k with
    | ArrowRight => if x currentDir =? 0 then set_nextDirectionRef (mkPoint 1 0) w else w
    | _ => w
    end.

(** [handleKeyDown] of the second copy. *)
Definition handleKeyDown_Dashboard (k : Key) (d : Draws) (w : World) : World :=
  match k with
  | Space =>
      match gameState w with
      | GAME_OVER | START => resetGame Dashboard d w
      | _ => togglePause w
      end
  | _ =>
      if negb (GameState_eqb (gameState w) PLAYING) then w
      else
        match k with
        | ArrowUp => handleDirectionChange (vector Up) w
        | ArrowDown => handleDirectionChange (vector Down) w
        | ArrowLeft => handleDirectionChange (vector Left) w
        | ArrowRight => handleDirectionChange (vector Right) w
        | _ => w
        end
  end.

Definition handleKeyDown (v : Variant) (k : Key) (d : Draws) (w : World) : World :=
  match v with
  | Neon => handleKeyDown_Neon k w
  | Dashboard => handleKeyDown_Dashboard k d w
  end.

(** *** The movement update of [loop] *)

(** [head + directionRef.current] *)
Definition advance (head dir : Point) : Point :=
  mkPoint (x head + x dir) (y head + y dir).

(** The four assignments of the WRAP branch, in order. *)
Definition wrap (v : Variant) (p : Point) : Point :=
  let x1 := if x p <? 0 then GRID_WIDTH v - 1 else x p in
  let x2 := if x1 >=? GRID_WIDTH v then 0 else x1 in
  let y1 := if y p <? 0 then GRID_HEIGHT v - 1 else y p in
  let y2 := if y1 >=? GRID_HEIGHT v then 0 else y1 in
  mkPoint x2 y2.

(** The test of the other branch:
    [x < 0 || x >= GRID_WIDTH || y < 0 || y >= GRID_HEIGHT]. *)
Definition outOfBounds (v : Variant) (p : Point) : bool :=
  (x p <? 0) || (x p >=? GRID_WIDTH v) || (y p <? 0) || (y p >=? GRID_HEIGHT v).

(** "Collision: Walls": the head after the branch, or [None] when the
    branch calls [gameOver]. *)
Definition wallCheck (v : Variant) (p : PowerUpType) (newHead : Point) : option Point :=
  match p with
  | PowerWRAP => Some (wrap v newHead)
  | _ => if outOfBounds v newHead then None else Some newHead
  end.

(** The [for ... of] scan of "Collision: Self". *)
Definition hitsSelf (newHead : Point) (snake : list Point) : bool :=
  existsb (samePoint newHead) snake.

(** "Collision: Self", guarded by [activePowerUp !== 'GHOST']. *)
Definition selfCheck (p : PowerUpType) (newHead : Point) (snake : list Point) : bool :=
  negb (PowerUpType_eqb p PowerGHOST) && hitsSelf newHead snake.

(** [activatePowerUp] as called for the food eaten. *)
Definition triggerPowerUps (t : FoodType) (w : World) : World :=
  let w := match t with GHOST => activatePowerUp PowerGHOST w | _ => w end in
  match t with WRAP => activatePowerUp PowerWRAP w | _ => w end.

(** The block [if (timeSinceLastRender > speedRef.current) { ... }] of
    [loop], as defined by the effect of render [r]: [activePowerUp] and
    [gameOver] are those of [r]. *)
Definition moveUpdate (v : Variant) (r : Render) (d : Draws) (w : World)
  : StepResult * World :=
  let w := set_directionRef (nextDirectionRef w) w in
  match snakeRef w with
  | [] => (TypeError, w)
  | head :: _ =>
      match wallCheck v (r_activePowerUp r) (advance head (directionRef w)) with
      | None => (Died, gameOver r w)
      | Some newHead =>
          if selfCheck (r_activePowerUp r) newHead (snakeRef w)
          then (Died, gameOver r w)
          else
            let newSnake := newHead :: snakeRef w in
            if onFood newHead (foodRef w) then
              let w := setScore (fun s => s + FOOD_POINTS v) w in
              let w := triggerPowerUps (food_type (foodRef w)) w in
              let w := spawnFood v d w in
              (Moved true, set_snakeRef newSnake w)
            else
              (Moved false, set_snakeRef (removelast newSnake) w)
      end
  end.

(** ** The component as a transition system *)

Definition render (w : World) : Render :=
  mkRender (gameState w) (score w) (highScore w) (activePowerUp w).

(** After a handler has run the component renders again.  The game-loop
    effect has the dependency array [[gameState, activePowerUp]]: only when
    one of the two changed is the effect of the new render installed;
    otherwise the [loop] already running stays, with the state variables of
    its own render. *)
Definition commit (w : World) : World :=
  if GameState_eqb (gameState w) (r_gameState (loopRender w))
     && PowerUpType_eqb (activePowerUp w) (r_activePowerUp (loopRender w))
  then w
  else set_loopRender (render w) w.

Inductive Event :=
| Click_reset (d : Draws)   (* a button whose handler is [resetGame] *)
| Click_pause               (* a button whose handler is [togglePause] *)
| KeyDown (k : Key) (d : Draws)
| Pointer (dir : Dir)       (* swipe or on-screen arrow: [handleDirectionChange] *)
| Frame (d : Draws)         (* an animation frame at which the move is due *)
| Timeout.                  (* the callback of [activatePowerUp] fires *)

Definition handle (v : Variant) (e : Event) (w : World) : World :=
  commit
    match e with
    | Click_reset d =>
        (* the buttons bound to [resetGame] are shown outside PLAYING *)
        if GameState_eqb (gameState w) PLAYING then w else resetGame v d w
    | Click_pause =>
        match v with Dashboard => togglePause w | Neon => w end
    | KeyDown k d => handleKeyDown v k d w
    | Pointer dir =>
        match v with Dashboard => handleDirectionChange (vector dir) w | Neon => w end
    | Frame d =>
        (* the effect installs [loop] only when [gameState === 'PLAYING'] *)
        if GameState_eqb (r_gameState (loopRender w)) PLAYING
        then snd (moveUpdate v (loopRender w) d w)
        else w
    | Timeout =>
        if powerUpTimeout w
        then set_powerUpTimeout false (setActivePowerUp null w)
        else w
    end.

Fixpoint run (v : Variant) (es : list Event) (w : World) : World :=
  match es with
  | [] => w
  | e :: es => run v es (handle v e w)
  end.

(** The component when mounted; [stored] is the localStorage entry. *)
Definition mount (stored : option Z) : World :=
  let highScore := match stored with Some n => n | None => 0 end in
  mkWorld START 0 highScore null
    [mkPoint 10 10] (mkPoint 1 0) (mkPoint 1 0) (mkFood 15 10 NORMAL)
    false stored 0%nat (mkRender START 0 highScore null).

Definition reachable (v : Variant) (w : World) : Prop :=
  exists stored es, w = run v es (mount stored).

(** ** Predicates used in the statements *)

Definition isUnit (d : Point) : bool :=
  samePoint d (mkPoint 1 0) || samePoint d (mkPoint (-1) 0)
  || samePoint d (mkPoint 0 1) || samePoint d (mkPoint 0 (-1)).

Definition inBounds (v : Variant) (p : Point) : bool := negb (outOfBounds v p).

(** The head computed by the next update: the current head moved by the
    direction the update commits ... *)
Definition rawHead (w : World) : Point :=
  advance (hd (mkPoint 0 0) (snakeRef w)) (nextDirectionRef w).

(** ... and the same after the wall branch, when this does not end the
    game: wrapped under WRAP, as it is otherwise. *)
Definition candidate (v : Variant) (p : PowerUpType) (w : World) : Point :=
  match p with
  | PowerWRAP => wrap v (rawHead w)
  | _ => rawHead w
  end.

(** The cell of a food. *)
Definition cell (f : Food) : Point := mkPoint (food_x f) (food_y f).

(** A draw [n / 2^k], for examples. *)
Definition draw (n k : Z) : spec_float :=
  binary_normalize Number.prec Number.emax n (- k) false.

(** A direction command is a same-axis command when it has a nonzero
    component on an axis on which the active direction has one. *)
Definition sameAxis (newDir currentDir : Point) : bool :=
  (negb (x newDir =? 0) && negb (x currentDir =? 0))
  || (negb (y newDir =? 0) && negb (y currentDir =? 0)).

(** The last element of a list of commands that is not a same-axis
    command, if any. *)
Fixpoint lastLegal (currentDir : Point) (cmds : list Dir) : option Dir :=
  match cmds with
  | [] => None
  | c :: cmds =>
      match lastLegal currentDir cmds with
      | Some c' => Some c'
      | None => if sameAxis (vector c) currentDir then None else Some c
      end
  end.

Definition key_of (d : Dir) : Key :=
  match d with
  | Up => ArrowUp | Down => ArrowDown | Left => ArrowLeft | Right => ArrowRight
  end.

(** The events that issue the direction command [c]: an arrow key in
    either copy, a swipe or an on-screen arrow in the second. *)
Inductive issues (v : Variant) : Dir -> Event -> Prop :=
| issues_key (c : Dir) (d : Draws) : issues v c (KeyDown (key_of c) d)
| issues_pointer (c : Dir) : v = Dashboard -> issues v c (Pointer c).

(** What holds of the snake and the directions in every reachable state. *)
Definition wellFormed (v : Variant) (w : World) : Prop :=
  snakeRef w <> []
  /\ inBounds v (hd (mkPoint 0 0) (snakeRef w)) = true
  /\ isUnit (directionRef w) = true
  /\ isUnit (nextDirectionRef w) = true.

(** A state in play, for examples: no power-up, score 0. *)
Definition playing (snake : list Point) (dir : Point) (food : Food) : World :=
  mkWorld PLAYING 0 0 null snake dir dir food false None 0%nat
    (mkRender PLAYING 0 0 null).

(** The render of a game in play with power-up [p]. *)
Definition rendered (p : PowerUpType) : Render := mkRender PLAYING 0 0 p.

(** ** Example states and runs *)

(** The draws [0, 0, 0]: a NORMAL food at the cell (0, 0). *)
Definition corner : Draws :=
  mkDraws (S754_zero false) (S754_zero false) (S754_zero false).

(** The draws [0.875, 0.375, 0.5]. *)
Definition ghostly : Draws := mkDraws (draw 7 3) (draw 3 3) (draw 1 1).

(** The draws [0, 0.34375, 0.5]. *)
Definition underfoot : Draws := mkDraws (S754_zero false) (draw 11 5) (draw 1 1).

(** One cell at (10, 10) heading right, food right ahead. *)
Definition ahead : World :=
  playing [mkPoint 10 10] (mkPoint 1 0) (mkFood 11 10 NORMAL).

(** Two cells at the left edge heading left. *)
Definition atEdge : World :=
  playing [mkPoint 0 10; mkPoint 1 10] (mkPoint (-1) 0) (mkFood 15 10 NORMAL).

(** Four cells in a square, the head about to enter the cell of the tail. *)
Definition coiled : World :=
  playing [mkPoint 5 5; mkPoint 5 6; mkPoint 6 6; mkPoint 6 5] (mkPoint 1 0)
    (mkFood 15 10 NORMAL).

(** A session of the first copy: reset with the food right ahead of the
    snake, eat it on the first move, then run straight into the right
    wall. *)
Definition session_Neon : list Event :=
  Click_reset (mkDraws (S754_zero false) (draw 3 3) (draw 1 1))
  :: repeat (Frame corner) 20.

(** The same in the second copy. *)
Definition session_Dashboard : list Event :=
  Click_reset (mkDraws (S754_zero false) (draw 5 5) (draw 13 5))
  :: repeat (Frame corner) 35.

(** ** Further definitions: whole runs, stored high score, swipes *)


(** [parseInt(localStorage.getItem('neon-snake-high-score') || '0')] for
    an entry written by [gameOver]. *)
Definition storedHighScore (s : option Z) : Z :=
  match s with Some n => n | None => 0 end.

(** What a handler does before the component renders again. *)
Definition step (v : Variant) (e : Event) (w : World) : World :=
  match e with
  | Click_reset d =>
      if GameState_eqb (gameState w) PLAYING then w else resetGame v d w
  | Click_pause =>
      match v with Dashboard => togglePause w | Neon => w end
  | KeyDown k d => handleKeyDown v k d w
  | Pointer dir =>
      match v with Dashboard => handleDirectionChange (vector dir) w | Neon => w end
  | Frame d =>
      if GameState_eqb (r_gameState (loopRender w)) PLAYING
      then snd (moveUpdate v (loopRender w) d w)
      else w
  | Timeout =>
      if powerUpTimeout w
      then set_powerUpTimeout false (setActivePowerUp null w)
      else w
  end.

(** The numbers an event supplies to [spawnFood], should it be called. *)
Definition draws_of (e : Event) : option Draws :=
  match e with
  | Click_reset d | KeyDown _ d | Frame d => Some d
  | Click_pause | Pointer _ | Timeout => None
  end.

Definition randomDraws (d : Draws) : bool :=
  Number.is_random (rand d) && Number.is_random (rand_x d)
  && Number.is_random (rand_y d).

(** An event whose numbers are numbers [Math.random()] may return. *)
Definition validEvent (e : Event) : bool :=
  match draws_of e with Some d => randomDraws d | None => true end.

(** Every cell of the body lies in the grid. *)
Definition inGrid (v : Variant) (w : World) : Prop :=
  Forall (fun p => inBounds v p = true) (snakeRef w).

(** [w'] is the start of a session: the state [resetGame] leaves. *)
Definition started (v : Variant) (d : Draws) (w' : World) : Prop :=
  gameState w' = PLAYING /\ score w' = 0 /\ snakeRef w' = RESET_SNAKE v
  /\ directionRef w' = mkPoint 1 0 /\ nextDirectionRef w' = mkPoint 1 0
  /\ foodRef w' = newFood v d /\ activePowerUp w' = null
  /\ powerUpTimeout w' = false.

(** The power-up that eating a food of kind [t] leaves active. *)
Definition afterEating (t : FoodType) (p : PowerUpType) : PowerUpType :=
  match t with GHOST => PowerGHOST | WRAP => PowerWRAP | NORMAL => p end.

(** What the installed loop knows, and what is stored. *)
Definition ledger (w : World) : Prop :=
  r_gameState (loopRender w) = gameState w
  /\ r_activePowerUp (loopRender w) = activePowerUp w
  /\ r_highScore (loopRender w) = highScore w
  /\ r_score (loopRender w) <= score w
  /\ highScore w = storedHighScore (localStorage w).

(** *** Swipes (second copy) *)

Module Swipe.

(** [clientX] and [clientY] of a touch: numbers. *)
Record TouchPoint := mkTouch { clientX : spec_float; clientY : spec_float }.

Definition sub (a b : spec_float) : spec_float := SFsub Number.prec Number.emax a b.

(** [Math.abs] *)
Definition abs (a : spec_float) : spec_float := SFabs a.

(** [a < b] *)
Definition lt (a b : spec_float) : bool := SFltb a b.

Definition thirty : spec_float := Number.of_Z 30.
Definition zero : spec_float := Number.of_Z 0.

(** A touch whose coordinates are the integers [a] and [b]. *)
Definition at_ (a b : Z) : TouchPoint := mkTouch (Number.of_Z a) (Number.of_Z b).

(** [handleTouchStart]: the ref [touchStartRef] takes the first touch. *)
Definition handleTouchStart (t : TouchPoint) (st : option TouchPoint * World)
  : option TouchPoint * World :=
  (Some t, snd st).

(** [handleTouchEnd] on [touchStartRef] and the game state. *)
Definition handleTouchEnd (t : TouchPoint) (st : option TouchPoint * World)
  : option TouchPoint * World :=
  match fst st with
  | None => st
  | Some s =>
      let dx := sub (clientX t) (clientX s) in
      let dy := sub (clientY t) (clientY s) in
      if lt (abs dx) thirty && lt (abs dy) thirty then st
      else
        let w :=
          if Number.gt (abs dx) (abs dy) then
            if Number.gt dx zero then handleDirectionChange (mkPoint 1 0) (snd st)
            else handleDirectionChange (mkPoint (-1) 0) (snd st)
          else
            if Number.gt dy zero then handleDirectionChange (mkPoint 0 1) (snd st)
            else handleDirectionChange (mkPoint 0 (-1)) (snd st) in
        (None, w)
  end.

End Swipe.

(** *** The body as a path *)

(** Two cells are linked when the first is one step from the second in one
    of the four directions, as computed or wrapped at the edges. *)
Definition linked (v : Variant) (a b : Point) : bool :=
  existsb (fun c => samePoint a (advance b (vector c))
                    || samePoint a (wrap v (advance b (vector c))))
    [Up; Down; Left; Right].

(** Every cell of the body is linked to the cell behind it. *)
Fixpoint chain (v : Variant) (l : list Point) : Prop :=
  match l with
  | a :: (b :: _) as t => linked v a b = true /\ chain v t
  | _ => True
  end.

(** *** Further example states *)

(** The first copy one update before the end of [session_Neon], and at
    its end. *)
Definition midgame : World := run Neon (removelast session_Neon) (mount None).
Definition over : World := run Neon session_Neon (mount None).

(** A session of the first copy that eats a GHOST food on the first move
    and then runs into the right wall; the state after the first move; the
    state one update before the end. *)
Definition session_ghost : list Event :=
  Click_reset ghostly :: repeat (Frame corner) 20.
Definition haunted : World := run Neon [Click_reset ghostly; Frame corner] (mount None).

(** The second copy, just started, and then paused. *)
Definition fresh : World := run Dashboard [Click_reset corner] (mount None).
Definition paused : World := run Dashboard [Click_reset corner; Click_pause] (mount None).

(** * Properties *)

(** ** The movement update *)

Section MoveUpdate.

Variable v : Variant.
Variable r : Render.
Variable d : Draws.

(** The update seen through its three tests, for a snake that has a head. *)
Lemma moveUpdate_cases (w : World) (head : Point) (rest : list Point) :
  snakeRef w = head :: rest ->
  moveUpdate v r d w =
  let w1 := set_directionRef (nextDirectionRef w) w in
  match wallCheck v (r_activePowerUp r) (rawHead w) with
  | None => (Died, gameOver r w1)
  | Some newHead =>
      if selfCheck (r_activePowerUp r) newHead (snakeRef w)
      then (Died, gameOver r w1)
      else if onFood newHead (foodRef w)
      then (Moved true,
            set_snakeRef (newHead :: snakeRef w)
              (spawnFood v d
                 (triggerPowerUps (food_type (foodRef w))
                    (setScore (fun s => s + FOOD_POINTS v) w1))))
      else (Moved false, set_snakeRef (removelast (newHead :: snakeRef w)) w1)
  end.
Proof.
  intros Hs. unfold moveUpdate, rawHead. cbn [snakeRef set_directionRef directionRef foodRef].
  rewrite Hs. cbn [hd]. reflexivity.
Qed.

Lemma wallCheck_candidate (w : World) :
  wallCheck v (r_activePowerUp r) (rawHead w) =
  if PowerUpType_eqb (r_activePowerUp r) PowerWRAP then Some (candidate v (r_activePowerUp r) w)
  else if outOfBounds v (rawHead w) then None
  else Some (candidate v (r_activePowerUp r) w).
Proof.
  unfold wallCheck, candidate. destruct (r_activePowerUp r); reflexivity.
Qed.

Lemma gameOver_refs (w : World) :
  snakeRef (gameOver r w) = snakeRef w /\ foodRef (gameOver r w) = foodRef w
  /\ directionRef (gameOver r w) = directionRef w
  /\ nextDirectionRef (gameOver r w) = nextDirectionRef w.
Proof.
  unfold gameOver. destruct (r_score r >? r_highScore r); cbn; auto.
Qed.

Lemma triggerPowerUps_refs (t : FoodType) (w : World) :
  snakeRef (triggerPowerUps t w) = snakeRef w
  /\ foodRef (triggerPowerUps t w) = foodRef w
  /\ directionRef (triggerPowerUps t w) = directionRef w
  /\ nextDirectionRef (triggerPowerUps t w) = nextDirectionRef w
  /\ gameState (triggerPowerUps t w) = gameState w.
Proof. destruct t; cbn; auto. Qed.

Lemma length_removelast_cons {A : Type} (a : A) (l : list A) :
  length (removelast (a :: l)) = length l.
Proof.
  revert a. induction l as [|b l IH]; intros a; [reflexivity|].
  change (removelast (a :: b :: l)) with (a :: removelast (b :: l)).
  cbn [length]. now rewrite IH.
Qed.

Lemma samePoint_eq (a b : Point) : samePoint a b = true <-> a = b.
Proof.
  unfold samePoint. rewrite andb_true_iff, !Z.eqb_eq.
  destruct a, b; cbn. split; [intros [-> ->]; reflexivity | intros H; inversion H; auto].
Qed.

Lemma hitsSelf_In (p : Point) (s : list Point) : hitsSelf p s = true <-> In p s.
Proof.
  unfold hitsSelf. rewrite existsb_exists. split.
  - intros [q [Hq Hpq]]. apply samePoint_eq in Hpq. now subst.
  - intros H. exists p. split; [assumption | now apply samePoint_eq].
Qed.

(** C1. When the head computed by an update is inside the grid (or the
    WRAP power-up is active, which wraps it) and is no cell of the body,
    the update ends as [Moved grew], where [grew] holds exactly when the
    new head is the cell of the food before the update, and the body is
    afterwards as long as before, plus one when [grew]. *)
Theorem moved_length (w : World) :
  snakeRef w <> [] ->
  r_activePowerUp r = PowerWRAP \/ inBounds v (rawHead w) = true ->
  hitsSelf (candidate v (r_activePowerUp r) w) (snakeRef w) = false ->
  exists grew : bool,
    fst (moveUpdate v r d w) = Moved grew
    /\ (grew = true <-> candidate v (r_activePowerUp r) w = cell (foodRef w))
    /\ length (snakeRef (snd (moveUpdate v r d w)))
       = (length (snakeRef w) + if grew then 1 else 0)%nat.
Proof.
  intros Hne Hwall Hself.
  destruct (snakeRef w) as [|head rest] eqn:Hs; [congruence|].
  rewrite (moveUpdate_cases w head rest Hs), wallCheck_candidate. cbn zeta.
  set (c := candidate v (r_activePowerUp r) w) in *.
  assert (Hw : (if PowerUpType_eqb (r_activePowerUp r) PowerWRAP then Some c
                else if outOfBounds v (rawHead w) then None else Some c) = Some c).
  { destruct Hwall as [-> | Hin]; [reflexivity|].
    unfold inBounds in Hin. apply negb_true_iff in Hin. rewrite Hin.
    now destruct (PowerUpType_eqb _ _). }
  rewrite Hw. unfold selfCheck. rewrite Hs, Hself, andb_false_r.
  assert (Hfood : onFood c (foodRef w) = true <-> c = cell (foodRef w)).
  { unfold onFood, cell. rewrite andb_true_iff, !Z.eqb_eq. destruct c as [cx cy]; cbn.
    split; [intros [-> ->]; reflexivity | intros H; inversion H; auto]. }
  exists (onFood c (foodRef w)). destruct (onFood c (foodRef w)) eqn:Hf.
  - split; [reflexivity|]. split; [exact Hfood|].
    cbn [snd set_snakeRef snakeRef length]. lia.
  - split; [reflexivity|]. split; [exact Hfood|].
    cbn [snd set_snakeRef snakeRef]. rewrite length_removelast_cons. cbn [length]. lia.
Qed.

(** Why an update ends as [Died]. *)
Lemma died_cause (w : World) :
  fst (moveUpdate v r d w) = Died ->
  (r_activePowerUp r <> PowerWRAP /\ outOfBounds v (rawHead w) = true)
  \/ selfCheck (r_activePowerUp r) (candidate v (r_activePowerUp r) w) (snakeRef w) = true.
Proof.
  destruct (snakeRef w) as [|head rest] eqn:Hs.
  - unfold moveUpdate. cbn [snakeRef set_directionRef]. rewrite Hs. discriminate.
  - rewrite (moveUpdate_cases w head rest Hs), wallCheck_candidate. cbn zeta. rewrite !Hs.
    destruct (PowerUpType_eqb (r_activePowerUp r) PowerWRAP) eqn:Hp;
      [|destruct (outOfBounds v (rawHead w)) eqn:Ho].
    + destruct (selfCheck _ _ _); [now right|].
      destruct (onFood _ _); discriminate.
    + intros _. left. split; [|reflexivity]. intros E. rewrite E in Hp. discriminate.
    + destruct (selfCheck _ _ _); [now right|].
      destruct (onFood _ _); discriminate.
Qed.

(** C2. An update that ends as [Died] did so on the wall test (head out of
    the grid, WRAP not active) or on the self-collision test (head on a
    cell of the body, GHOST not active), and it leaves the body and the
    food as they were. *)
Theorem died_keeps_body_and_food (w : World) :
  fst (moveUpdate v r d w) = Died ->
  snakeRef (snd (moveUpdate v r d w)) = snakeRef w
  /\ foodRef (snd (moveUpdate v r d w)) = foodRef w
  /\ ((r_activePowerUp r <> PowerWRAP /\ outOfBounds v (rawHead w) = true)
      \/ (r_activePowerUp r <> PowerGHOST
          /\ hitsSelf (candidate v (r_activePowerUp r) w) (snakeRef w) = true)).
Proof.
  destruct (snakeRef w) as [|head rest] eqn:Hs.
  - unfold moveUpdate. cbn [snakeRef set_directionRef]. rewrite Hs. cbn. discriminate.
  - rewrite (moveUpdate_cases w head rest Hs), wallCheck_candidate. cbn zeta.
    rewrite !Hs.
    set (c := candidate v (r_activePowerUp r) w).
    set (w1 := set_directionRef (nextDirectionRef w) w).
    assert (Hrefs : snakeRef (gameOver r w1) = head :: rest /\ foodRef (gameOver r w1) = foodRef w).
    { destruct (gameOver_refs w1) as (H1 & H2 & _). rewrite H1, H2. subst w1. cbn. auto. }
    assert (Hself : selfCheck (r_activePowerUp r) c (head :: rest) = true ->
                    r_activePowerUp r <> PowerGHOST /\ hitsSelf c (head :: rest) = true).
    { unfold selfCheck. rewrite andb_true_iff, negb_true_iff. intros [Hg Hh]. split; [|exact Hh].
      intros E. rewrite E in Hg. discriminate. }
    destruct (PowerUpType_eqb (r_activePowerUp r) PowerWRAP) eqn:Hp.
    + destruct (selfCheck (r_activePowerUp r) c (head :: rest)) eqn:Hsc.
      * intros _. cbn [snd]. destruct Hrefs as [H1 H2].
        split; [exact H1|]. split; [exact H2|]. right. now apply Hself.
      * destruct (onFood c (foodRef w)); cbn; discriminate.
    + destruct (outOfBounds v (rawHead w)) eqn:Ho.
      * intros _. cbn [snd]. destruct Hrefs as [H1 H2].
        split; [exact H1|]. split; [exact H2|].
        left. split; [|reflexivity]. intros E. rewrite E in Hp. discriminate.
      * destruct (selfCheck (r_activePowerUp r) c (head :: rest)) eqn:Hsc.
        -- intros _. cbn [snd]. destruct Hrefs as [H1 H2].
           split; [exact H1|]. split; [exact H2|]. right. now apply Hself.
        -- destruct (onFood c (foodRef w)); cbn; discriminate.
Qed.

Lemma isUnit_cases (p : Point) :
  isUnit p = true ->
  p = mkPoint 1 0 \/ p = mkPoint (-1) 0 \/ p = mkPoint 0 1 \/ p = mkPoint 0 (-1).
Proof.
  unfold isUnit. rewrite !orb_true_iff, !samePoint_eq. tauto.
Qed.

Lemma inBounds_iff (p : Point) :
  inBounds v p = true <-> 0 <= x p < GRID_WIDTH v /\ 0 <= y p < GRID_HEIGHT v.
Proof.
  unfold inBounds, outOfBounds. rewrite negb_true_iff, !orb_false_iff.
  rewrite !Z.ltb_ge, !Z.geb_leb, !Z.leb_gt. lia.
Qed.

Lemma grid_size : 2 <= GRID_WIDTH v /\ 2 <= GRID_HEIGHT v.
Proof. destruct v; cbn; lia. Qed.

(** The wrap of a cell one step outside the grid. *)
Lemma wrap_step (head dir : Point) :
  inBounds v head = true -> isUnit dir = true ->
  let raw := advance head dir in
  inBounds v (wrap v raw) = true
  /\ wrap v raw <> head
  /\ (outOfBounds v raw = false -> wrap v raw = raw)
  /\ (x raw < 0 -> wrap v raw = mkPoint (GRID_WIDTH v - 1) (y head))
  /\ (x raw >= GRID_WIDTH v -> wrap v raw = mkPoint 0 (y head))
  /\ (y raw < 0 -> wrap v raw = mkPoint (x head) (GRID_HEIGHT v - 1))
  /\ (y raw >= GRID_HEIGHT v -> wrap v raw = mkPoint (x head) 0).
Proof.
  intros Hin Hd. apply inBounds_iff in Hin. destruct grid_size as [HW HH].
  destruct head as [hx hy]. cbn [x y] in Hin.
  assert (Hw : forall p, wrap v p =
     mkPoint (if (if x p <? 0 then GRID_WIDTH v - 1 else x p) >=? GRID_WIDTH v then 0
              else if x p <? 0 then GRID_WIDTH v - 1 else x p)
             (if (if y p <? 0 then GRID_HEIGHT v - 1 else y p) >=? GRID_HEIGHT v then 0
              else if y p <? 0 then GRID_HEIGHT v - 1 else y p)) by reflexivity.
  cbn zeta. rewrite inBounds_iff, Hw.
  unfold outOfBounds.
  destruct (isUnit_cases dir Hd) as [-> | [-> | [-> | ->]]]; cbn [advance x y];
    repeat match goal with
           | |- context [?a <? ?b] => destruct (Z.ltb_spec a b)
           | |- context [?a >=? ?b] => rewrite (Z.geb_leb a b); destruct (Z.leb_spec b a)
           end; cbn [x y orb];
    repeat split; try lia; try discriminate; intros; try lia;
    try (f_equal; lia); try (intros E; inversion E; lia).
Qed.

(** The wrap of any cell: a cell of the grid; a coordinate beyond an edge
    is moved to the opposite edge, a coordinate in range is kept. *)
Lemma wrap_any (p : Point) :
  inBounds v (wrap v p) = true
  /\ (x p < 0 -> x (wrap v p) = GRID_WIDTH v - 1)
  /\ (x p >= GRID_WIDTH v -> x (wrap v p) = 0)
  /\ (y p < 0 -> y (wrap v p) = GRID_HEIGHT v - 1)
  /\ (y p >= GRID_HEIGHT v -> y (wrap v p) = 0)
  /\ (0 <= x p < GRID_WIDTH v -> x (wrap v p) = x p)
  /\ (0 <= y p < GRID_HEIGHT v -> y (wrap v p) = y p).
Proof.
  destruct grid_size as [HW HH]. rewrite inBounds_iff. unfold wrap. cbn [x y].
  repeat match goal with
         | |- context [?a <? ?b] => destruct (Z.ltb_spec a b)
         | |- context [?a >=? ?b] => rewrite (Z.geb_leb a b); destruct (Z.leb_spec b a)
         end; repeat split; intros; lia.
Qed.

(** C3. With WRAP active, in every state: the head computed by the update
    is wrapped into the grid, a coordinate beyond an edge re-entering at the
    opposite edge and a coordinate in range being kept; the update ends as
    [Died] only when the wrapped head is a cell of the body, never on the
    wall test, and otherwise as [Moved] with the wrapped head in front.  In
    a well-formed state (every reachable state is one) the head leaves the
    grid over one edge only, so it re-enters in the row or column of the
    current head. *)
Theorem wrap_reenters (w : World) :
  r_activePowerUp r = PowerWRAP ->
  snakeRef w <> [] ->
  let head := hd (mkPoint 0 0) (snakeRef w) in
  let raw := rawHead w in
  let c := candidate v (r_activePowerUp r) w in
  inBounds v c = true
  /\ (x raw < 0 -> x c = GRID_WIDTH v - 1)
  /\ (x raw >= GRID_WIDTH v -> x c = 0)
  /\ (y raw < 0 -> y c = GRID_HEIGHT v - 1)
  /\ (y raw >= GRID_HEIGHT v -> y c = 0)
  /\ (0 <= x raw < GRID_WIDTH v -> x c = x raw)
  /\ (0 <= y raw < GRID_HEIGHT v -> y c = y raw)
  /\ (fst (moveUpdate v r d w) = Died -> hitsSelf c (snakeRef w) = true)
  /\ (hitsSelf c (snakeRef w) = false ->
      exists grew, fst (moveUpdate v r d w) = Moved grew
                   /\ hd (mkPoint 0 0) (snakeRef (snd (moveUpdate v r d w))) = c)
  /\ (wellFormed v w ->
      (x raw < 0 -> c = mkPoint (GRID_WIDTH v - 1) (y head))
      /\ (x raw >= GRID_WIDTH v -> c = mkPoint 0 (y head))
      /\ (y raw < 0 -> c = mkPoint (x head) (GRID_HEIGHT v - 1))
      /\ (y raw >= GRID_HEIGHT v -> c = mkPoint (x head) 0)
      /\ (outOfBounds v raw = false -> c = raw)).
Proof.
  intros Hp Hne. cbn zeta.
  assert (Hc : candidate v (r_activePowerUp r) w = wrap v (rawHead w)).
  { unfold candidate. now rewrite Hp. }
  rewrite Hc.
  destruct (wrap_any (rawHead w)) as (W1 & W2 & W3 & W4 & W5 & W6 & W7).
  repeat (split; [assumption|]).
  assert (Hupd : (fst (moveUpdate v r d w) = Died ->
                  hitsSelf (wrap v (rawHead w)) (snakeRef w) = true)
                 /\ (hitsSelf (wrap v (rawHead w)) (snakeRef w) = false ->
                     exists grew, fst (moveUpdate v r d w) = Moved grew
                       /\ hd (mkPoint 0 0) (snakeRef (snd (moveUpdate v r d w)))
                          = wrap v (rawHead w))).
  { destruct (snakeRef w) as [|head rest] eqn:Hs; [congruence|].
    rewrite (moveUpdate_cases w head rest Hs), wallCheck_candidate, !Hc, !Hp. cbn zeta.
    cbn [PowerUpType_eqb]. unfold selfCheck. cbn [PowerUpType_eqb negb andb]. rewrite !Hs.
    destruct (hitsSelf (wrap v (rawHead w)) (head :: rest)) eqn:Hh.
    - split; [reflexivity | discriminate].
    - split.
      + destruct (onFood _ _); cbn; discriminate.
      + intros _. destruct (onFood (wrap v (rawHead w)) (foodRef w)).
        * exists true. cbn. auto.
        * exists false. split; [reflexivity|]. cbn [snd set_snakeRef snakeRef].
          change (removelast (wrap v (rawHead w) :: head :: rest))
            with (wrap v (rawHead w) :: removelast (head :: rest)). reflexivity. }
  destruct Hupd as [U1 U2]. split; [exact U1|]. split; [exact U2|].
  intros (_ & Hin & _ & Hd). unfold rawHead.
  destruct (wrap_step _ _ Hin Hd) as (_ & _ & H3 & H4 & H5 & H6 & H7).
  repeat split; assumption.
Qed.

(** C4. With GHOST active the update ends as [Died] exactly when the
    computed head is out of the grid: a head on a cell of the body moves on,
    a head beyond a wall still ends the game. *)
Theorem ghost_passes_self_not_walls (w : World) :
  r_activePowerUp r = PowerGHOST ->
  snakeRef w <> [] ->
  (outOfBounds v (rawHead w) = true -> fst (moveUpdate v r d w) = Died)
  /\ (inBounds v (rawHead w) = true ->
      exists grew, fst (moveUpdate v r d w) = Moved grew)
  /\ (hitsSelf (rawHead w) (snakeRef w) = true -> inBounds v (rawHead w) = true ->
      fst (moveUpdate v r d w) <> Died).
Proof.
  intros Hp Hne.
  destruct (snakeRef w) as [|head rest] eqn:Hs; [congruence|].
  rewrite (moveUpdate_cases w head rest Hs), wallCheck_candidate, Hp. cbn zeta.
  cbn [PowerUpType_eqb]. unfold selfCheck, inBounds. cbn [PowerUpType_eqb negb andb].
  destruct (outOfBounds v (rawHead w)); cbn [negb fst].
  - split; [reflexivity|]. split; intros; discriminate.
  - split; [discriminate|]. split.
    + intros _. destruct (onFood _ _); eexists; reflexivity.
    + intros _ _. destruct (onFood _ _); cbn; discriminate.
Qed.

(** C6. Without GHOST, an update whose computed head is the cell of the
    tail ends as [Died], whether or not the food is eaten: the scan covers
    the whole body as it is before the move. *)
Theorem tail_cell_is_fatal (w : World) :
  (2 <= length (snakeRef w))%nat ->
  r_activePowerUp r <> PowerGHOST ->
  candidate v (r_activePowerUp r) w = last (snakeRef w) (mkPoint 0 0) ->
  fst (moveUpdate v r d w) = Died.
Proof.
  intros Hlen Hp Hc.
  destruct (snakeRef w) as [|head rest] eqn:Hs; [cbn in Hlen; lia|].
  assert (Hin : hitsSelf (candidate v (r_activePowerUp r) w) (head :: rest) = true).
  { apply hitsSelf_In. rewrite Hc.
    destruct (exists_last (l := head :: rest)) as [l' [a Ha]]; [discriminate|].
    rewrite Ha, last_last. apply in_or_app. right. now left. }
  rewrite (moveUpdate_cases w head rest Hs), wallCheck_candidate. cbn zeta.
  assert (Hg : PowerUpType_eqb (r_activePowerUp r) PowerGHOST = false)
    by (destruct (r_activePowerUp r); try reflexivity; congruence).
  destruct (PowerUpType_eqb _ PowerWRAP);
    [| destruct (outOfBounds v (rawHead w)); [reflexivity|]];
    unfold selfCheck; rewrite !Hs, Hin, Hg; reflexivity.
Qed.

End MoveUpdate.

(** ** Direction commands *)

Section Direction.

Variable v : Variant.

Lemma handleDirectionChange_spec (newDir : Point) (w : World) :
  handleDirectionChange newDir w =
  if sameAxis newDir (directionRef w) then w else set_nextDirectionRef newDir w.
Proof.
  unfold handleDirectionChange, sameAxis.
  destruct (negb (x newDir =? 0) && negb (x (directionRef w) =? 0));
    destruct (negb (y newDir =? 0) && negb (y (directionRef w) =? 0)); reflexivity.
Qed.

(** In play, the arrow keys of the first copy do what
    [handleDirectionChange] does in the second. *)
Lemma handleKeyDown_Neon_spec (c : Dir) (w : World) :
  gameState w = PLAYING ->
  handleKeyDown_Neon (key_of c) w = handleDirectionChange (vector c) w.
Proof.
  intros Hg. rewrite handleDirectionChange_spec.
  unfold handleKeyDown_Neon, sameAxis. rewrite Hg. cbn [GameState_eqb negb].
  destruct c; cbn [key_of vector x y Z.eqb negb andb orb];
    try (destruct (y (directionRef w) =? 0)); try (destruct (x (directionRef w) =? 0));
    reflexivity.
Qed.

Lemma handleKeyDown_arrow (c : Dir) (d : Draws) (w : World) :
  gameState w = PLAYING ->
  handleKeyDown v (key_of c) d w = handleDirectionChange (vector c) w.
Proof.
  intros Hg. destruct v; cbn [handleKeyDown].
  - now apply handleKeyDown_Neon_spec.
  - unfold handleKeyDown_Dashboard. rewrite Hg. destruct c; reflexivity.
Qed.

Lemma commit_refs (w : World) :
  snakeRef (commit w) = snakeRef w /\ foodRef (commit w) = foodRef w
  /\ directionRef (commit w) = directionRef w
  /\ nextDirectionRef (commit w) = nextDirectionRef w
  /\ gameState (commit w) = gameState w
  /\ score (commit w) = score w /\ highScore (commit w) = highScore w
  /\ activePowerUp (commit w) = activePowerUp w.
Proof.
  unfold commit. destruct (_ && _); cbn; repeat split.
Qed.

Lemma issues_handle (c : Dir) (e : Event) (w : World) :
  gameState w = PLAYING -> issues v c e ->
  handle v e w =
  commit (if sameAxis (vector c) (directionRef w) then w
          else set_nextDirectionRef (vector c) w).
Proof.
  intros Hg [c' d | c' Hv]; unfold handle.
  - now rewrite handleKeyDown_arrow, handleDirectionChange_spec.
  - now rewrite Hv, handleDirectionChange_spec.
Qed.

(** The update commits the buffered direction before anything else. *)
Lemma moveUpdate_commits (r : Render) (d : Draws) (w : World) :
  directionRef (snd (moveUpdate v r d w)) = nextDirectionRef w.
Proof.
  destruct (snakeRef w) as [|head rest] eqn:Hs.
  - unfold moveUpdate. cbn [snakeRef set_directionRef]. rewrite Hs. reflexivity.
  - rewrite (moveUpdate_cases v r d w head rest Hs). cbn zeta.
    set (w1 := set_directionRef (nextDirectionRef w) w).
    assert (Hg : directionRef (gameOver r w1) = nextDirectionRef w).
    { destruct (gameOver_refs r w1) as (_ & _ & H & _). now rewrite H. }
    destruct (wallCheck _ _ _); [|exact Hg].
    destruct (selfCheck _ _ _); [exact Hg|].
    destruct (onFood _ _); cbn [snd set_snakeRef directionRef spawnFood set_foodRef].
    + now destruct (triggerPowerUps_refs (food_type (foodRef w))
                      (setScore (fun s => s + FOOD_POINTS v) w1)) as (_ & _ & -> & _).
    + reflexivity.
Qed.

(** C5. In play, an event that issues a direction command has no effect
    when the command has a nonzero component on an axis of the active
    direction, and otherwise overwrites the buffered direction and nothing
    else.  Hence after any list of such events the active direction is as
    before, the buffer holds the last command of the list that was not on
    the axis of the active direction (it is as before when there is none),
    and the next update makes the buffer the active direction. *)
Theorem last_legal_command_wins (w : World) (cmds : list Dir) (es : list Event) :
  gameState w = PLAYING ->
  Forall2 (issues v) cmds es ->
  (forall c e, issues v c e ->
     handle v e w =
     commit (if sameAxis (vector c) (directionRef w) then w
             else set_nextDirectionRef (vector c) w))
  /\ directionRef (run v es w) = directionRef w
  /\ nextDirectionRef (run v es w) =
     match lastLegal (directionRef w) cmds with
     | Some c => vector c
     | None => nextDirectionRef w
     end
  /\ forall r d, directionRef (snd (moveUpdate v r d (run v es w))) =
     match lastLegal (directionRef w) cmds with
     | Some c => vector c
     | None => nextDirectionRef w
     end.
Proof.
  intros Hg HF. split; [intros c e; now apply issues_handle|].
  assert (H : directionRef (run v es w) = directionRef w
              /\ nextDirectionRef (run v es w) =
                 match lastLegal (directionRef w) cmds with
                 | Some c => vector c
                 | None => nextDirectionRef w
                 end).
  { revert w Hg. induction HF as [|c e cmds es Hce HF IH]; intros w Hg; [split; reflexivity|].
    cbn [run lastLegal].
    assert (Hh := issues_handle c e w Hg Hce).
    destruct (commit_refs (if sameAxis (vector c) (directionRef w) then w
                           else set_nextDirectionRef (vector c) w))
      as (_ & _ & Hd & Hn & Hgs & _).
    rewrite <- Hh in Hd, Hn, Hgs.
    assert (Hg' : gameState (handle v e w) = PLAYING).
    { rewrite Hgs. now destruct (sameAxis _ _). }
    assert (Hd' : directionRef (handle v e w) = directionRef w).
    { rewrite Hd. now destruct (sameAxis _ _). }
    destruct (IH _ Hg') as [IH1 IH2]. rewrite IH1, IH2, Hd'. split; [reflexivity|].
    destruct (lastLegal (directionRef w) cmds); [reflexivity|].
    rewrite Hn. now destruct (sameAxis _ _). }
  destruct H as [H1 H2]. split; [exact H1|]. split; [exact H2|].
  intros r d. now rewrite moveUpdate_commits.
Qed.

End Direction.

(** ** Reachable states *)

Lemma wellFormed_ext (v : Variant) (w w' : World) :
  snakeRef w' = snakeRef w -> directionRef w' = directionRef w ->
  nextDirectionRef w' = nextDirectionRef w ->
  wellFormed v w -> wellFormed v w'.
Proof. unfold wellFormed. intros -> -> ->. auto. Qed.

Lemma isUnit_vector (c : Dir) : isUnit (vector c) = true.
Proof. destruct c; reflexivity. Qed.

Lemma wellFormed_set_next (v : Variant) (p : Point) (w : World) :
  isUnit p = true -> wellFormed v w -> wellFormed v (set_nextDirectionRef p w).
Proof. unfold wellFormed. cbn. tauto. Qed.

Lemma wellFormed_resetGame (v : Variant) (d : Draws) (w : World) : wellFormed v (resetGame v d w).
Proof. unfold wellFormed. destruct v; cbn; repeat split; discriminate. Qed.

Lemma wellFormed_togglePause (v : Variant) (w : World) :
  wellFormed v w -> wellFormed v (togglePause w).
Proof. apply wellFormed_ext; unfold togglePause; destruct (gameState w); reflexivity. Qed.

Lemma wellFormed_handleDirectionChange (v : Variant) (c : Dir) (w : World) :
  wellFormed v w -> wellFormed v (handleDirectionChange (vector c) w).
Proof.
  intros H. rewrite handleDirectionChange_spec. destruct (sameAxis _ _); [exact H|].
  apply wellFormed_set_next; [apply isUnit_vector | exact H].
Qed.

Lemma wellFormed_handleKeyDown (v : Variant) (k : Key) (d : Draws) (w : World) :
  wellFormed v w -> wellFormed v (handleKeyDown v k d w).
Proof.
  intros H. destruct v; cbn [handleKeyDown].
  - unfold handleKeyDown_Neon. destruct (negb _); [exact H|].
    destruct k; cbn zeta;
      try (destruct (y (directionRef w) =? 0)); try (destruct (x (directionRef w) =? 0));
      try exact H; now apply wellFormed_set_next.
  - unfold handleKeyDown_Dashboard.
    destruct k; try (destruct (negb _); [exact H|]);
      try (apply (wellFormed_handleDirectionChange _ Up), H);
      try (apply (wellFormed_handleDirectionChange _ Down), H);
      try (apply (wellFormed_handleDirectionChange _ Left), H);
      try (apply (wellFormed_handleDirectionChange _ Right), H);
      try exact H.
    destruct (gameState w); try apply wellFormed_resetGame; now apply wellFormed_togglePause.
Qed.

Lemma wallCheck_inBounds (v : Variant) (p : PowerUpType) (head dir c : Point) :
  inBounds v head = true -> isUnit dir = true ->
  wallCheck v p (advance head dir) = Some c -> inBounds v c = true.
Proof.
  intros Hin Hd. unfold wallCheck.
  assert (Hw : inBounds v (wrap v (advance head dir)) = true)
    by (now destruct (wrap_step v head dir Hin Hd)).
  destruct p; try (intros E; inversion E; subst; exact Hw);
    unfold inBounds; destruct (outOfBounds v (advance head dir)) eqn:Ho; try discriminate;
    intros E; inversion E; subst; now rewrite Ho.
Qed.

Lemma wellFormed_moveUpdate (v : Variant) (r : Render) (d : Draws) (w : World) :
  wellFormed v w -> wellFormed v (snd (moveUpdate v r d w)).
Proof.
  intros (Hne & Hin & Hd & Hn).
  destruct (snakeRef w) as [|head rest] eqn:Hs; [congruence|]. cbn [hd] in Hin.
  assert (Hdir := moveUpdate_commits v r d w).
  unfold wellFormed. rewrite Hdir.
  rewrite (moveUpdate_cases v r d w head rest Hs) in *. cbn zeta in *.
  set (w1 := set_directionRef (nextDirectionRef w) w) in *.
  destruct (gameOver_refs r w1) as (G1 & _ & _ & G4).
  assert (Hgo : snakeRef (gameOver r w1) <> []
                /\ inBounds v (hd (mkPoint 0 0) (snakeRef (gameOver r w1))) = true
                /\ isUnit (nextDirectionRef w) = true
                /\ isUnit (nextDirectionRef (gameOver r w1)) = true).
  { rewrite G1, G4. subst w1. cbn. rewrite Hs. cbn. repeat split; auto; discriminate. }
  unfold rawHead in *. rewrite Hs in *. cbn [hd] in *.
  destruct (wallCheck v (r_activePowerUp r) (advance head (nextDirectionRef w))) as [c|] eqn:Hw;
    [|exact Hgo].
  assert (Hc := wallCheck_inBounds v _ _ _ _ Hin Hn Hw).
  destruct (selfCheck _ _ _); [exact Hgo|].
  destruct (onFood _ _); cbn [snd set_snakeRef snakeRef nextDirectionRef hd
                               spawnFood set_foodRef].
  - destruct (triggerPowerUps_refs (food_type (foodRef w))
                (setScore (fun s => s + FOOD_POINTS v) w1)) as (_ & _ & _ & -> & _).
    subst w1. cbn. repeat split; auto; discriminate.
  - change (removelast (c :: head :: rest)) with (c :: removelast (head :: rest)).
    subst w1. cbn. repeat split; auto; discriminate.
Qed.

Lemma wellFormed_commit (v : Variant) (w : World) : wellFormed v w -> wellFormed v (commit w).
Proof.
  destruct (commit_refs w) as (H1 & _ & H3 & H4 & _). now apply wellFormed_ext.
Qed.

Lemma wellFormed_handle (v : Variant) (e : Event) (w : World) :
  wellFormed v w -> wellFormed v (handle v e w).
Proof.
  intros H. unfold handle. apply wellFormed_commit. destruct e.
  - destruct (GameState_eqb _ _); [exact H | apply wellFormed_resetGame].
  - destruct v; [exact H | now apply wellFormed_togglePause].
  - now apply wellFormed_handleKeyDown.
  - destruct v; [exact H | now apply wellFormed_handleDirectionChange].
  - destruct (GameState_eqb _ _); [now apply wellFormed_moveUpdate | exact H].
  - destruct (powerUpTimeout w); [|exact H]. revert H. now apply wellFormed_ext.
Qed.

Lemma wellFormed_run (v : Variant) (es : list Event) (w : World) :
  wellFormed v w -> wellFormed v (run v es w).
Proof.
  revert w. induction es as [|e es IH]; intros w H; [exact H|].
  cbn [run]. apply IH. now apply wellFormed_handle.
Qed.

Lemma wellFormed_mount (v : Variant) (stored : option Z) : wellFormed v (mount stored).
Proof. unfold wellFormed. destruct v; cbn; repeat split; discriminate. Qed.

Lemma reachable_wellFormed (v : Variant) (w : World) : reachable v w -> wellFormed v w.
Proof.
  intros (stored & es & ->). apply wellFormed_run, wellFormed_mount.
Qed.

(** The game-loop effect in place is always the one of a render with the
    current [gameState] and [activePowerUp]. *)
Lemma commit_synced (w : World) :
  r_gameState (loopRender (commit w)) = gameState (commit w)
  /\ r_activePowerUp (loopRender (commit w)) = activePowerUp (commit w).
Proof.
  unfold commit.
  destruct (GameState_eqb (gameState w) (r_gameState (loopRender w))) eqn:H1;
    [destruct (PowerUpType_eqb (activePowerUp w) (r_activePowerUp (loopRender w))) eqn:H2|];
    cbn; auto.
  split.
  - destruct (gameState w), (r_gameState (loopRender w)); try discriminate; reflexivity.
  - destruct (activePowerUp w), (r_activePowerUp (loopRender w)); try discriminate; reflexivity.
Qed.

Lemma run_synced (v : Variant) (es : list Event) (w : World) :
  r_gameState (loopRender w) = gameState w
  /\ r_activePowerUp (loopRender w) = activePowerUp w ->
  r_gameState (loopRender (run v es w)) = gameState (run v es w)
  /\ r_activePowerUp (loopRender (run v es w)) = activePowerUp (run v es w).
Proof.
  revert w. induction es as [|e es IH]; intros w H; [exact H|].
  cbn [run]. apply IH. unfold handle. apply commit_synced.
Qed.

Lemma reachable_synced (v : Variant) (w : World) :
  reachable v w ->
  r_gameState (loopRender w) = gameState w
  /\ r_activePowerUp (loopRender w) = activePowerUp w.
Proof.
  intros (stored & es & ->). apply run_synced. split; reflexivity.
Qed.

(** C10. In every reachable state the direction the next update commits is
    one of the four unit vectors, so the head it computes, wrapped or not,
    is not the cell of the current head; for a snake of one cell the
    self-collision test therefore fails, and the update can end as [Died]
    only on the wall test. *)
Theorem single_cell_never_hits_itself (v : Variant) (r : Render) (d : Draws) (w : World) :
  reachable v w ->
  isUnit (nextDirectionRef w) = true
  /\ directionRef (snd (moveUpdate v r d w)) = nextDirectionRef w
  /\ rawHead w <> hd (mkPoint 0 0) (snakeRef w)
  /\ candidate v (r_activePowerUp r) w <> hd (mkPoint 0 0) (snakeRef w)
  /\ (length (snakeRef w) = 1%nat ->
      selfCheck (r_activePowerUp r) (candidate v (r_activePowerUp r) w) (snakeRef w) = false
      /\ (fst (moveUpdate v r d w) = Died ->
          r_activePowerUp r <> PowerWRAP /\ outOfBounds v (rawHead w) = true)).
Proof.
  intros Hr. destruct (reachable_wellFormed v w Hr) as (Hne & Hin & Hd & Hn).
  split; [exact Hn|]. split; [apply moveUpdate_commits|].
  assert (Hraw : rawHead w <> hd (mkPoint 0 0) (snakeRef w)).
  { unfold rawHead. destruct (hd (mkPoint 0 0) (snakeRef w)) as [hx hy].
    destruct (isUnit_cases _ Hn) as [-> | [-> | [-> | ->]]]; cbn;
      intros E; inversion E; lia. }
  assert (Hcand : candidate v (r_activePowerUp r) w <> hd (mkPoint 0 0) (snakeRef w)).
  { unfold candidate. destruct (r_activePowerUp r); try exact Hraw.
    unfold rawHead. now destruct (wrap_step v _ _ Hin Hn) as (_ & H & _). }
  split; [exact Hraw|]. split; [exact Hcand|].
  intros Hlen.
  destruct (snakeRef w) as [|head [|? ?]] eqn:Hs; try discriminate. cbn [hd] in *.
  assert (Hself : selfCheck (r_activePowerUp r) (candidate v (r_activePowerUp r) w) [head] = false).
  { unfold selfCheck, hitsSelf. cbn [existsb].
    destruct (samePoint _ head) eqn:E; [apply samePoint_eq in E; contradiction|].
    now rewrite andb_false_r. }
  split; [exact Hself|].
  intros Hdied. destruct (died_cause v r d w Hdied) as [H | H]; [exact H|].
  rewrite Hs, Hself in H. discriminate.
Qed.

(** ** Numbers: the product of a random number and a grid dimension *)

(** [shr_1] on a non-negative mantissa: halve, and keep the bit lost. *)
Lemma shr_1_nonneg (mrs : shr_record) :
  0 <= shr_m mrs ->
  shr_m (shr_1 mrs) = Z.div2 (shr_m mrs) /\ shr_r (shr_1 mrs) = Z.odd (shr_m mrs).
Proof.
  destruct mrs as [m r s]. cbn [shr_m]. intros Hm.
  destruct m as [|[p|p|]|p]; cbn; try lia; split; reflexivity.
Qed.

Lemma iter_shr_1 (p : positive) : forall mrs : shr_record,
  0 <= shr_m mrs ->
  shr_m (iter_pos shr_1 p mrs) = Z.shiftr (shr_m mrs) (Z.pos p)
  /\ shr_r (iter_pos shr_1 p mrs) = Z.testbit (shr_m mrs) (Z.pos p - 1).
Proof.
  induction p as [p IH|p IH|]; intros mrs Hm; cbn [iter_pos].
  - destruct (shr_1_nonneg mrs Hm) as [H1 H2].
    assert (H0 : 0 <= shr_m (shr_1 mrs)) by (rewrite H1; now apply Z.div2_nonneg).
    destruct (IH _ H0) as [H3 H4].
    assert (H5 : 0 <= shr_m (iter_pos shr_1 p (shr_1 mrs)))
      by (rewrite H3; now apply Z.shiftr_nonneg).
    destruct (IH _ H5) as [H6 H7].
    rewrite H6, H7, H3, H1, Z.div2_spec, !Z.shiftr_shiftr by lia.
    split; [f_equal; lia|].
    rewrite Z.shiftr_spec by lia. f_equal. lia.
  - destruct (IH _ Hm) as [H3 H4].
    assert (H5 : 0 <= shr_m (iter_pos shr_1 p mrs))
      by (rewrite H3; now apply Z.shiftr_nonneg).
    destruct (IH _ H5) as [H6 H7].
    rewrite H6, H7, H3, !Z.shiftr_shiftr by lia.
    split; [f_equal; lia|].
    rewrite Z.shiftr_spec by lia. f_equal. lia.
  - destruct (shr_1_nonneg mrs Hm) as [H1 H2]. rewrite H1, H2, Z.div2_spec.
    split; [reflexivity|]. now rewrite Z.bit0_odd.
Qed.

(** Rounding to nearest after a shift by [n] loses at most half a unit. *)
Lemma round_after_shr (m e n : Z) :
  0 <= m ->
  let '(mrs, e') := shr (Build_shr_record m false false) e n in
  let m1 := round_nearest_even (shr_m mrs) (loc_of_shr_record mrs) in
  e' = e + Z.max 0 n
  /\ 0 <= m1
  /\ 2 * (2 ^ Z.max 0 n * m1) <= 2 * m + 2 ^ Z.max 0 n.
Proof.
  intros Hm. destruct n as [|p|p]; cbn [shr].
  - cbn [shr_m shr_r shr_s loc_of_shr_record round_nearest_even].
    rewrite Z.max_l, Z.pow_0_r by lia. lia.
  - destruct (iter_shr_1 p (Build_shr_record m false false) Hm) as [H1 H2].
    cbn [shr_m] in H1, H2.
    destruct (iter_pos shr_1 p (Build_shr_record m false false)) as [m' r' s'].
    cbn [shr_m shr_r] in *. rewrite (Z.max_r 0 (Z.pos p)) by lia.
    split; [reflexivity|].
    set (a := Z.shiftr m (Z.pos p - 1)).
    assert (Ha0 : 0 <= a) by (now apply Z.shiftr_nonneg).
    assert (Ha : a * 2 ^ (Z.pos p - 1) <= m).
    { unfold a. rewrite Z.shiftr_div_pow2 by lia. rewrite Z.mul_comm.
      apply Z.mul_div_le. apply Z.pow_pos_nonneg; lia. }
    assert (Hm' : m' = Z.div2 a).
    { rewrite H1. unfold a. rewrite Z.div2_spec, Z.shiftr_shiftr by lia. f_equal. lia. }
    assert (Hr' : r' = Z.odd a).
    { rewrite H2. unfold a. rewrite <- Z.bit0_odd, Z.shiftr_spec by lia. f_equal. }
    assert (Hdiv := Z.div2_odd a). rewrite <- Hm', <- Hr' in Hdiv.
    assert (Hpow : 2 ^ Z.pos p = 2 * 2 ^ (Z.pos p - 1)).
    { rewrite <- Z.pow_succ_r by lia. f_equal. lia. }
    assert (Hpos : 0 < 2 ^ (Z.pos p - 1)) by (apply Z.pow_pos_nonneg; lia).
    assert (Hm0 : 0 <= m') by (rewrite Hm'; now apply Z.div2_nonneg).
    assert (Hle : round_nearest_even m' (loc_of_shr_record (Build_shr_record m' r' s'))
                  <= m' + Z.b2z r'
                  /\ 0 <= round_nearest_even m' (loc_of_shr_record (Build_shr_record m' r' s'))).
    { destruct r', s'; cbn; try (destruct (Z.even m')); lia. }
    destruct Hle as [Hle Hge]. split; [exact Hge|].
    rewrite Hpow. set (P := 2 ^ (Z.pos p - 1)) in *.
    set (R := round_nearest_even _ _) in *.
    assert (HR : 2 * P * R <= 2 * P * (m' + Z.b2z r')) by (apply Z.mul_le_mono_nonneg_l; lia).
    assert (HaP : 2 * P * (m' + Z.b2z r') = a * P + P * Z.b2z r').
    { replace (a * P) with ((2 * m' + Z.b2z r') * P) by (now rewrite <- Hdiv). ring. }
    assert (HbP : P * Z.b2z r' <= P) by (destruct r'; cbn [Z.b2z]; lia).
    lia.
  - cbn [shr_m shr_r shr_s loc_of_shr_record round_nearest_even].
    rewrite Z.max_l, Z.pow_0_r by lia. lia.
Qed.

Lemma shr_exact (m e n : Z) :
  0 <= m ->
  let '(mrs, e') := shr (Build_shr_record m false false) e n in
  e' = e + Z.max 0 n /\ 0 <= shr_m mrs /\ shr_m mrs * 2 ^ Z.max 0 n <= m.
Proof.
  intros Hm. destruct n as [|p|p]; cbn [shr].
  - cbn [shr_m]. rewrite Z.max_l, Z.pow_0_r by lia. lia.
  - destruct (iter_shr_1 p (Build_shr_record m false false) Hm) as [H1 _].
    cbn [shr_m] in H1. rewrite H1, (Z.max_r 0 (Z.pos p)) by lia.
    split; [reflexivity|]. split; [now apply Z.shiftr_nonneg|].
    rewrite Z.shiftr_div_pow2 by lia. rewrite Z.mul_comm.
    apply Z.mul_div_le. apply Z.pow_pos_nonneg; lia.
  - cbn [shr_m]. rewrite Z.max_l, Z.pow_0_r by lia. lia.
Qed.

Lemma digits2_lower (p : positive) : 2 ^ Z.pos (digits2_pos p) <= 2 * Z.pos p.
Proof.
  induction p as [p IH|p IH|]; cbn [digits2_pos]; try (cbn; lia);
    rewrite Pos2Z.inj_succ, Z.pow_succ_r by lia; lia.
Qed.

Lemma digits2_upper (p : positive) : Z.pos p < 2 ^ Z.pos (digits2_pos p).
Proof.
  induction p as [p IH|p IH|]; cbn [digits2_pos]; try (cbn; lia);
    rewrite Pos2Z.inj_succ, Z.pow_succ_r by lia; lia.
Qed.

Lemma pow2_pos (k : Z) : 0 <= k -> 0 < 2 ^ k.
Proof. intros. apply Z.pow_pos_nonneg; lia. Qed.

Lemma mul_below (m : positive) (e : Z) (my : positive) (ey n : Z) :
  e <= -53 -> Z.pos m < 2 ^ 53 ->
  2 ^ 52 <= Z.pos my < 2 ^ 53 -> -52 <= ey <= 0 -> Z.pos my = n * 2 ^ (- ey) ->
  Number.finite (Number.mul (S754_finite false m e) (S754_finite false my ey)) = true
  /\ 0 <= Number.floor (Number.mul (S754_finite false m e) (S754_finite false my ey)) < n.
Proof.
  intros He Hm [Hmy Hmy'] Hey Hn.
  assert (Hn0 : 0 < n).
  { assert (0 < 2 ^ (- ey)) by (apply pow2_pos; lia). nia. }
  unfold Number.mul, Number.prec, Number.emax.
  cbn [SFmul xorb]. unfold binary_round_aux, shr_fexp. cbn [shr_record_of_loc Zdigits2].
  set (M := (m * my)%positive). set (E := e + ey).
  set (n1 := fexp 53 1024 (Z.pos (digits2_pos M) + E) - E).
  assert (HM : Z.pos M = Z.pos m * Z.pos my) by reflexivity.
  pose proof (round_after_shr (Z.pos M) E n1 ltac:(lia)) as H1.
  destruct (shr (Build_shr_record (Z.pos M) false false) E n1) as [mrs' e'].
  set (M1 := round_nearest_even (shr_m mrs') (loc_of_shr_record mrs')) in *.
  destruct H1 as (He' & HM1 & Hround).
  set (n2 := fexp 53 1024 (Zdigits2 M1 + e') - e').
  pose proof (shr_exact M1 e' n2 HM1) as H2.
  destruct (shr (Build_shr_record M1 false false) e' n2) as [mrs'' e''].
  destruct H2 as (He'' & Hm'' & Hshift).
  set (k1 := Z.max 0 n1) in *. set (k2 := Z.max 0 n2) in *.
  set (q' := 2 ^ (- e - 53)).
  assert (Hq' : 1 <= q') by (unfold q'; assert (0 < 2 ^ (- e - 53)) by (apply pow2_pos; lia); lia).
  assert (Hq : 2 ^ (- e) = 2 ^ 53 * q').
  { unfold q'. rewrite <- Z.pow_add_r by lia. f_equal. lia. }
  assert (Hmq : Z.pos m + q' <= 2 ^ 53 * q') by nia.
  assert (HN : 2 ^ k1 < 2 * Z.pos my * q').
  { assert (Hmyq : 2 ^ 52 <= Z.pos my * q') by nia.
    assert (Hk : k1 = 0 \/ (k1 = Z.pos (digits2_pos M) - 53 /\ 0 < k1)
                 \/ (k1 = -1074 - E /\ 0 < k1)).
    { unfold k1, n1, fexp, emin. lia. }
    destruct Hk as [-> | [[Hk Hk0] | [Hk Hk0]]].
    - rewrite Z.pow_0_r. lia.
    - assert (HD := digits2_lower M).
      replace (Z.pos (digits2_pos M)) with (k1 + 53) in HD by lia.
      rewrite Z.pow_add_r in HD by lia.
      assert (Z.pos M < 2 ^ 53 * q' * Z.pos my) by (rewrite HM; nia).
      assert (0 < 2 ^ 53) by (apply pow2_pos; lia). nia.
    - assert (2 ^ k1 <= q').
      { unfold q'. apply Z.pow_le_mono_r; unfold E in *; lia. }
      nia. }
  assert (Hpk1 : 0 < 2 ^ k1) by (apply pow2_pos; unfold k1; lia).
  assert (Hpk2 : 0 < 2 ^ k2) by (apply pow2_pos; unfold k2; lia).
  assert (Hbig : 2 ^ k1 * M1 < Z.pos my * 2 ^ (- e)).
  { rewrite Hq.
    assert (2 * (Z.pos m * Z.pos my) <= 2 * ((2 ^ 53 * q' - q') * Z.pos my)).
    { apply Z.mul_le_mono_nonneg_l; [lia|]. apply Z.mul_le_mono_nonneg_r; lia. }
    rewrite HM in Hround. lia. }
  assert (Hfin : shr_m mrs'' * 2 ^ (k1 + k2) < n * 2 ^ (- E)).
  { rewrite Z.pow_add_r by (unfold k1, k2; lia).
    replace (2 ^ (- E)) with (2 ^ (- ey) * 2 ^ (- e))
      by (rewrite <- Z.pow_add_r by lia; f_equal; unfold E; lia).
    replace (n * (2 ^ (- ey) * 2 ^ (- e))) with (Z.pos my * 2 ^ (- e)) by (rewrite Hn; ring).
    assert (shr_m mrs'' * 2 ^ k2 * 2 ^ k1 <= M1 * 2 ^ k1)
      by (apply Z.mul_le_mono_nonneg_r; lia).
    lia. }
  assert (HE'' : e'' = E + (k1 + k2)) by lia.
  destruct (shr_m mrs'') as [|m''|m''] eqn:Hs; [split; [reflexivity | cbn [Number.floor]; lia] | | lia].
  assert (Hval : 0 <= e'' -> Z.pos m'' * 2 ^ e'' < n).
  { intros Hpos. replace (k1 + k2) with (e'' + - E) in Hfin by lia.
    rewrite (Z.pow_add_r 2 e'' (- E)), Z.mul_assoc in Hfin by (unfold E; lia).
    apply Z.mul_lt_mono_pos_r in Hfin; [exact Hfin|]. apply pow2_pos. unfold E. lia. }
  assert (Hsmall : e'' <= 52).
  { destruct (Z.le_gt_cases 0 e'') as [Hpos | Hneg]; [|lia].
    assert (Hlt := Hval Hpos).
    assert (H2 : 2 ^ e'' < 2 ^ 53).
    { assert (0 < 2 ^ e'') by (now apply pow2_pos).
      assert (0 < 2 ^ (- ey)) by (apply pow2_pos; lia).
      assert (1 * 2 ^ e'' <= Z.pos m'' * 2 ^ e'') by (apply Z.mul_le_mono_nonneg_r; lia).
      assert (n * 1 <= n * 2 ^ (- ey)) by (apply Z.mul_le_mono_nonneg_l; lia).
      lia. }
    apply Z.pow_lt_mono_r_iff in H2; lia. }
  destruct (Z.leb_spec e'' (1024 - 53)) as [_ | Hbig']; [|lia].
  split; [reflexivity|]. cbn [Number.floor].
  destruct (Z.leb_spec 0 e'') as [Hpos | Hneg].
  - split; [assert (0 < 2 ^ e'') by (now apply pow2_pos); lia | now apply Hval].
  - assert (Hp : 0 < 2 ^ (- e'')) by (apply pow2_pos; lia).
    split; [apply Z.div_pos; lia|].
    apply Z.div_lt_upper_bound; [exact Hp|].
    replace (- E) with ((k1 + k2) + - e'') in Hfin by lia.
    rewrite (Z.pow_add_r 2 (k1 + k2) (- e'')) in Hfin by (unfold k1, k2; lia).
    assert (Hpk : 0 < 2 ^ (k1 + k2)) by (apply pow2_pos; unfold k1, k2; lia).
    apply (Z.mul_lt_mono_pos_l (2 ^ (k1 + k2))); [exact Hpk|].
    replace (2 ^ (k1 + k2) * (2 ^ (- e'') * n)) with (n * (2 ^ (k1 + k2) * 2 ^ (- e''))) by ring.
    rewrite Z.mul_comm. exact Hfin.
Qed.

Lemma compare_cont_Eq (p q : positive) : Pos.compare_cont Eq p q = Pos.compare p q.
Proof. reflexivity. Qed.

(** A number [Math.random()] may return is [+0] or [m * 2^e] with
    [e <= -53] and [m < 2^53]. *)
Lemma is_random_cases (r : spec_float) :
  Number.is_random r = true ->
  r = S754_zero false
  \/ exists m e, r = S754_finite false m e /\ e <= -53 /\ Z.pos m < 2 ^ 53.
Proof.
  unfold Number.is_random. intros H. apply andb_true_iff in H. destruct H as [Hv Hlt].
  destruct r as [[|]|[|]| |[|] m e]; try discriminate; [now left|].
  right. exists m, e. split; [reflexivity|].
  unfold valid_binary, bounded, canonical_mantissa, fexp, emin,
    Number.prec, Number.emax in Hv.
  apply andb_true_iff in Hv. destruct Hv as [Hc _]. apply Z.eqb_eq in Hc.
  assert (HD : Z.pos (digits2_pos m) <= 53) by lia.
  assert (Hup := digits2_upper m). assert (Hlo := digits2_lower m).
  assert (Hm : Z.pos m < 2 ^ 53).
  { apply Z.lt_le_trans with (1 := Hup). apply Z.pow_le_mono_r; lia. }
  split; [|exact Hm].
  unfold SFltb, SFcompare, Number.one in Hlt.
  destruct (Z.compare_spec e (-52)) as [He | He | He]; try discriminate; [|lia].
  exfalso. subst e.
  assert (HD' : Z.pos (digits2_pos m) = 53) by lia.
  rewrite HD' in Hlo. rewrite compare_cont_Eq in Hlt.
  destruct (Pos.compare_spec m 4503599627370496) as [C | C | C]; try discriminate.
  apply Pos2Z.pos_lt_pos in C. lia.
Qed.

(** A grid dimension, as a number: [m * 2^e] with [2^52 <= m] and value
    the dimension. *)
Lemma exact_dim_spec (n : Z) :
  Number.exact_dim n = true ->
  exists my ey, Number.of_Z n = S754_finite false my ey
    /\ 2 ^ 52 <= Z.pos my < 2 ^ 53 /\ -52 <= ey <= 0 /\ Z.pos my = n * 2 ^ (- ey).
Proof.
  unfold Number.exact_dim.
  destruct (Number.of_Z n) as [ | | |[|] my ey]; try discriminate.
  rewrite !andb_true_iff. intros ((((Hv & Hm) & He) & Hval) & Hn).
  apply Z.leb_le in Hm, He. apply Z.eqb_eq in Hval. apply Z.ltb_lt in Hn.
  unfold valid_binary, bounded, canonical_mantissa, fexp, emin,
    Number.prec, Number.emax in Hv.
  apply andb_true_iff in Hv. destruct Hv as [Hc _]. apply Z.eqb_eq in Hc.
  assert (HD : Z.pos (digits2_pos my) <= 53) by lia.
  assert (Hup := digits2_upper my).
  assert (Hmy : Z.pos my < 2 ^ 53).
  { apply Z.lt_le_trans with (1 := Hup). apply Z.pow_le_mono_r; lia. }
  exists my, ey. split; [reflexivity|]. split; [lia|]. split; [|exact Hval].
  split; [|exact He].
  assert (Hp : 2 ^ (- ey) < 2 ^ 53).
  { assert (0 < 2 ^ (- ey)) by (apply pow2_pos; lia). nia. }
  apply Z.pow_lt_mono_r_iff in Hp; lia.
Qed.

(** The cell index computed for a random number is inside the dimension. *)
Lemma floor_mul_random (r : spec_float) (n : Z) :
  Number.is_random r = true -> Number.exact_dim n = true ->
  Number.finite (Number.mul r (Number.of_Z n)) = true
  /\ 0 <= Number.floor (Number.mul r (Number.of_Z n)) < n.
Proof.
  intros Hr Hn. destruct (exact_dim_spec n Hn) as (my & ey & -> & Hmy & Hey & Hval).
  assert (Hn0 : 0 < n).
  { assert (0 < 2 ^ (- ey)) by (apply pow2_pos; lia). nia. }
  destruct (is_random_cases r Hr) as [-> | (m & e & -> & He & Hm)].
  - unfold Number.mul. cbn [SFmul xorb Number.floor Number.finite]. split; [reflexivity | lia].
  - now apply mul_below.
Qed.

Lemma grid_exact (v : Variant) :
  Number.exact_dim (GRID_WIDTH v) = true /\ Number.exact_dim (GRID_HEIGHT v) = true.
Proof. destruct v; split; vm_compute; reflexivity. Qed.

(** The comparisons with the literals [0.85] and [0.70] decide whether the
    number drawn exceeds the decimal fraction. *)
Lemma gt_literal (r : spec_float) (l : positive) (num : Z) :
  Number.is_random r = true ->
  0 < num * 2 ^ 53 - 100 * Z.pos l < 100 -> 50 <= num ->
  (Number.gt r (S754_finite false l (-53)) = true <-> Number.exceeds r num 100).
Proof.
  intros Hr Hl Hnum. destruct (is_random_cases r Hr) as [-> | (m & e & -> & He & Hm)].
  - cbn. split; [discriminate | contradiction].
  - unfold Number.gt, SFltb, SFcompare, Number.exceeds.
    destruct (Z.compare_spec (-53) e) as [E | E | E]; try lia.
    + subst e. cbn [Z.opp]. rewrite compare_cont_Eq.
      destruct (Pos.compare_spec l m) as [C | C | C].
      * subst m. split; [discriminate | lia].
      * split; [intros _|reflexivity]. apply Pos2Z.pos_lt_pos in C. lia.
      * split; [discriminate|]. apply Pos2Z.pos_lt_pos in C. lia.
    + split; [discriminate|]. intros Hx. exfalso.
      assert (2 * 2 ^ 53 <= 2 ^ (- e)).
      { rewrite <- Z.pow_succ_r by lia. apply Z.pow_le_mono_r; lia. }
      nia.
Qed.

Lemma gt_lit_0_85 (r : spec_float) :
  Number.is_random r = true ->
  (Number.gt r Number.lit_0_85 = true <-> Number.exceeds r 85 100).
Proof. intros Hr. apply gt_literal; [exact Hr | vm_compute; split; reflexivity | lia]. Qed.

Lemma gt_lit_0_70 (r : spec_float) :
  Number.is_random r = true ->
  (Number.gt r Number.lit_0_70 = true <-> Number.exceeds r 70 100).
Proof. intros Hr. apply gt_literal; [exact Hr | vm_compute; split; reflexivity | lia]. Qed.

(** The two literals lie within half a unit in the last place, [2^-54],
    of the decimals they stand for. *)
Lemma literals_nearest :
  Number.lit_0_85 = S754_finite false 7656119366529843 (-53)
  /\ Z.abs (100 * 7656119366529843 - 85 * 2 ^ 53) < 50
  /\ Number.lit_0_70 = S754_finite false 6305039478318694 (-53)
  /\ Z.abs (100 * 6305039478318694 - 70 * 2 ^ 53) < 50.
Proof. repeat split. Qed.

(** The product is the binary64 product: for this number [r], just below
    17/30, [r * 30] rounds to 17 although the exact product is below 17. *)
Lemma floor_follows_rounding :
  let r := S754_finite false 5104079577686562 (-53) in
  Number.is_random r = true
  /\ Number.floor (Number.mul r (Number.of_Z 30)) = 17
  /\ (5104079577686562 * 30) / 2 ^ 53 = 16.
Proof. vm_compute. repeat split; reflexivity. Qed.

(** ** Food *)

Lemma exceeds_weaken (r : spec_float) : Number.exceeds r 85 100 -> Number.exceeds r 70 100.
Proof.
  destruct r as [ | | |[|] m e]; unfold Number.exceeds; try contradiction.
  intros H. assert (0 <= 2 ^ (- e)) by (apply Z.pow_nonneg; lia). lia.
Qed.

Lemma newFood_inBounds (v : Variant) (d : Draws) :
  Number.is_random (rand_x d) = true -> Number.is_random (rand_y d) = true ->
  inBounds v (cell (newFood v d)) = true.
Proof.
  intros Hx Hy. destruct (grid_exact v) as [HW HH]. apply inBounds_iff.
  unfold newFood, cell. cbn [food_x food_y x y].
  split; apply floor_mul_random; assumption.
Qed.

Lemma newFood_finite (v : Variant) (d : Draws) :
  Number.is_random (rand_x d) = true -> Number.is_random (rand_y d) = true ->
  Number.finite (Number.mul (rand_x d) (Number.of_Z (GRID_WIDTH v))) = true
  /\ Number.finite (Number.mul (rand_y d) (Number.of_Z (GRID_HEIGHT v))) = true.
Proof.
  intros Hx Hy. destruct (grid_exact v) as [HW HH].
  split; apply floor_mul_random; assumption.
Qed.

(** C9. For numbers that [Math.random()] may return, the food built by
    [spawnFood] lies at column [floor(rand_x * GRID_WIDTH)] and row
    [floor(rand_y * GRID_HEIGHT)] (the products being those of the
    program, and finite), which is a cell of the grid; its kind is GHOST
    exactly when the kind draw exceeds 0.85, WRAP exactly when it exceeds
    0.70 and not 0.85, and NORMAL exactly when it does not exceed 0.70. *)
Theorem spawn_cell_and_kind (v : Variant) (d : Draws) (w : World) :
  Number.is_random (rand d) = true ->
  Number.is_random (rand_x d) = true ->
  Number.is_random (rand_y d) = true ->
  let f := foodRef (spawnFood v d w) in
  food_x f = Number.floor (Number.mul (rand_x d) (Number.of_Z (GRID_WIDTH v)))
  /\ food_y f = Number.floor (Number.mul (rand_y d) (Number.of_Z (GRID_HEIGHT v)))
  /\ Number.finite (Number.mul (rand_x d) (Number.of_Z (GRID_WIDTH v))) = true
  /\ Number.finite (Number.mul (rand_y d) (Number.of_Z (GRID_HEIGHT v))) = true
  /\ 0 <= food_x f < GRID_WIDTH v
  /\ 0 <= food_y f < GRID_HEIGHT v
  /\ (food_type f = GHOST <-> Number.exceeds (rand d) 85 100)
  /\ (food_type f = WRAP <->
      Number.exceeds (rand d) 70 100 /\ ~ Number.exceeds (rand d) 85 100)
  /\ (food_type f = NORMAL <-> ~ Number.exceeds (rand d) 70 100).
Proof.
  intros Hr Hx Hy. cbn zeta. cbn [spawnFood set_foodRef foodRef].
  split; [reflexivity|]. split; [reflexivity|].
  destruct (newFood_finite v d Hx Hy) as [Fx Fy]. split; [exact Fx|]. split; [exact Fy|].
  assert (Hin := newFood_inBounds v d Hx Hy). apply inBounds_iff in Hin.
  cbn [cell x y] in Hin. split; [apply Hin|]. split; [apply Hin|].
  assert (H85 := gt_lit_0_85 _ Hr). assert (H70 := gt_lit_0_70 _ Hr).
  assert (Hw := exceeds_weaken (rand d)).
  unfold newFood. cbn [food_type].
  destruct (Number.gt (rand d) Number.lit_0_85);
    destruct (Number.gt (rand d) Number.lit_0_70);
    intuition congruence.
Qed.

(** C8, as it holds.  The food installed by [resetGame], and by an update
    that eats, is the food built from the three draws alone, at a cell of
    the grid; the body of the snake is not consulted. *)
Theorem spawned_food_ignores_snake (v : Variant) (r : Render) (d : Draws) (w : World) :
  Number.is_random (rand_x d) = true ->
  Number.is_random (rand_y d) = true ->
  foodRef (resetGame v d w) = newFood v d
  /\ (fst (moveUpdate v r d w) = Moved true ->
      foodRef (snd (moveUpdate v r d w)) = newFood v d)
  /\ inBounds v (cell (newFood v d)) = true.
Proof.
  intros Hx Hy. split; [reflexivity|]. split; [|now apply newFood_inBounds].
  destruct (snakeRef w) as [|head rest] eqn:Hs.
  - unfold moveUpdate. cbn [snakeRef set_directionRef]. rewrite Hs. discriminate.
  - rewrite (moveUpdate_cases v r d w head rest Hs). cbn zeta.
    destruct (wallCheck _ _ _); [|discriminate].
    destruct (selfCheck _ _ _); [discriminate|].
    destruct (onFood _ _); [reflexivity | discriminate].
Qed.

(** C8, as claimed, fails: after this reset of the first copy the food lies
    on the one cell of the snake. *)
Lemma food_spawns_on_snake :
  Number.is_random (rand underfoot) = true
  /\ Number.is_random (rand_x underfoot) = true
  /\ Number.is_random (rand_y underfoot) = true
  /\ snakeRef (resetGame Neon underfoot (mount None)) = [mkPoint 10 10]
  /\ cell (foodRef (resetGame Neon underfoot (mount None))) = mkPoint 10 10
  /\ In (cell (foodRef (resetGame Neon underfoot (mount None))))
        (snakeRef (resetGame Neon underfoot (mount None))).
Proof. vm_compute. repeat split; try reflexivity. now left. Qed.

(** ** High score *)

(** [gameOver] compares the score and the high score of the render it
    was created in. *)
Lemma gameOver_compares_render (r : Render) (w : World) :
  gameState (gameOver r w) = GAME_OVER
  /\ (r_score r > r_highScore r ->
      highScore (gameOver r w) = r_score r
      /\ localStorage (gameOver r w) = Some (r_score r)
      /\ confetti (gameOver r w) = S (confetti w))
  /\ (r_score r <= r_highScore r ->
      highScore (gameOver r w) = highScore w
      /\ localStorage (gameOver r w) = localStorage w
      /\ confetti (gameOver r w) = confetti w).
Proof.
  unfold gameOver. destruct (Z.gtb_spec (r_score r) (r_highScore r)); cbn;
    repeat split; intros; try reflexivity; lia.
Qed.

(** Eating a NORMAL food changes the score and neither [gameState] nor
    [activePowerUp]: the effect in place stays, with the score of its own
    render. *)
Lemma stale_score_before_death :
  gameState (run Neon (removelast session_Neon) (mount None)) = PLAYING
  /\ score (run Neon (removelast session_Neon) (mount None)) = 10
  /\ r_score (loopRender (run Neon (removelast session_Neon) (mount None))) = 0.
Proof. vm_compute. repeat split. Qed.

(** C7 fails on the code.  In both copies: a session that starts from a
    stored high score of 0, eats one food and then hits the wall ends in
    GAME_OVER with a score above the stored high score, and yet the high
    score is not updated, nothing is stored and no confetti is fired. *)
Theorem high_score_missed :
  highScore (mount None) = 0
  /\ (gameState (run Neon session_Neon (mount None)) = GAME_OVER
      /\ score (run Neon session_Neon (mount None)) = 10
      /\ highScore (run Neon session_Neon (mount None)) = 0
      /\ localStorage (run Neon session_Neon (mount None)) = None
      /\ confetti (run Neon session_Neon (mount None)) = 0%nat)
  /\ (gameState (run Dashboard session_Dashboard (mount None)) = GAME_OVER
      /\ score (run Dashboard session_Dashboard (mount None)) = 50
      /\ highScore (run Dashboard session_Dashboard (mount None)) = 0
      /\ localStorage (run Dashboard session_Dashboard (mount None)) = None
      /\ confetti (run Dashboard session_Dashboard (mount None)) = 0%nat).
Proof. vm_compute. repeat split. Qed.

(** The numbers drawn in the two sessions are numbers [Math.random()] may
    return, and the sessions die on the last update only. *)
Lemma sessions_are_runs :
  Forall (fun r => Number.is_random r = true)
    [S754_zero false; draw 3 3; draw 1 1; draw 5 5; draw 13 5]
  /\ gameState (run Neon (removelast session_Neon) (mount None)) = PLAYING
  /\ gameState (run Dashboard (removelast session_Dashboard) (mount None)) = PLAYING.
Proof. split; [repeat constructor | vm_compute; split; reflexivity]. Qed.

(** ** The theorems at concrete states *)

(** The first scenario of the specification: one cell at (10, 10) heading
    right, food at (11, 10). *)
Lemma moved_length_witness :
  snakeRef ahead <> []
  /\ inBounds Neon (rawHead ahead) = true
  /\ hitsSelf (candidate Neon null ahead) (snakeRef ahead) = false
  /\ exists grew : bool,
       fst (moveUpdate Neon (rendered null) corner ahead) = Moved grew
       /\ (grew = true <-> candidate Neon null ahead = cell (foodRef ahead))
       /\ length (snakeRef (snd (moveUpdate Neon (rendered null) corner ahead)))
          = (length (snakeRef ahead) + if grew then 1 else 0)%nat.
Proof.
  split; [discriminate|]. split; [reflexivity|]. split; [reflexivity|].
  apply (moved_length Neon (rendered null) corner ahead);
    [discriminate | right; reflexivity | reflexivity].
Defined.

(** The second scenario: two cells at the left edge heading left. *)
Lemma died_keeps_body_and_food_witness :
  fst (moveUpdate Neon (rendered null) corner atEdge) = Died
  /\ snakeRef (snd (moveUpdate Neon (rendered null) corner atEdge))
     = [mkPoint 0 10; mkPoint 1 10]
  /\ foodRef (snd (moveUpdate Neon (rendered null) corner atEdge)) = mkFood 15 10 NORMAL.
Proof.
  split; [reflexivity|].
  destruct (died_keeps_body_and_food Neon (rendered null) corner atEdge eq_refl)
    as (H1 & H2 & _).
  split; [exact H1 | exact H2].
Defined.

(** The third scenario: the same with WRAP active. *)
Lemma wrap_reenters_witness :
  wellFormed Neon atEdge
  /\ x (rawHead atEdge) < 0
  /\ candidate Neon PowerWRAP atEdge = mkPoint 29 10
  /\ exists grew, fst (moveUpdate Neon (rendered PowerWRAP) corner atEdge) = Moved grew
       /\ hd (mkPoint 0 0) (snakeRef (snd (moveUpdate Neon (rendered PowerWRAP) corner atEdge)))
          = candidate Neon PowerWRAP atEdge.
Proof.
  assert (Hwf : wellFormed Neon atEdge)
    by (split; [discriminate | repeat split; reflexivity]).
  destruct (wrap_reenters Neon (rendered PowerWRAP) corner atEdge eq_refl
              ltac:(discriminate))
    as (_ & _ & _ & _ & _ & _ & _ & _ & H9 & H10).
  split; [exact Hwf|]. split; [cbn; lia|].
  split; [apply (H10 Hwf); cbn; lia | apply H9; reflexivity].
Defined.

Lemma ghost_passes_self_not_walls_witness :
  hitsSelf (rawHead coiled) (snakeRef coiled) = true
  /\ fst (moveUpdate Neon (rendered PowerGHOST) corner coiled) <> Died
  /\ fst (moveUpdate Neon (rendered PowerGHOST) corner atEdge) = Died.
Proof.
  split; [reflexivity|]. split.
  - destruct (ghost_passes_self_not_walls Neon (rendered PowerGHOST) corner coiled eq_refl
                ltac:(discriminate)) as (_ & _ & H).
    apply H; reflexivity.
  - destruct (ghost_passes_self_not_walls Neon (rendered PowerGHOST) corner atEdge eq_refl
                ltac:(discriminate)) as (H & _).
    apply H; reflexivity.
Defined.

Lemma tail_cell_is_fatal_witness :
  candidate Neon null coiled = mkPoint 6 5
  /\ last (snakeRef coiled) (mkPoint 0 0) = mkPoint 6 5
  /\ onFood (candidate Neon null coiled) (foodRef coiled) = false
  /\ fst (moveUpdate Neon (rendered null) corner coiled) = Died.
Proof.
  split; [reflexivity|]. split; [reflexivity|]. split; [reflexivity|].
  apply (tail_cell_is_fatal Neon (rendered null) corner coiled);
    [cbn; lia | discriminate | reflexivity].
Defined.

(** Heading right: Up is taken, Left is on the axis of the active
    direction and ignored, so Up is committed. *)
Lemma last_legal_command_wins_witness :
  gameState ahead = PLAYING
  /\ directionRef (run Neon [KeyDown ArrowUp corner; KeyDown ArrowLeft corner] ahead)
     = mkPoint 1 0
  /\ nextDirectionRef (run Neon [KeyDown ArrowUp corner; KeyDown ArrowLeft corner] ahead)
     = mkPoint 0 (-1)
  /\ directionRef
       (snd (moveUpdate Neon (rendered null) corner
               (run Neon [KeyDown ArrowUp corner; KeyDown ArrowLeft corner] ahead)))
     = mkPoint 0 (-1).
Proof.
  split; [reflexivity|].
  destruct (last_legal_command_wins Neon ahead [Up; Left]
              [KeyDown ArrowUp corner; KeyDown ArrowLeft corner] eq_refl
              (Forall2_cons _ _ (issues_key Neon Up corner)
                 (Forall2_cons _ _ (issues_key Neon Left corner) (Forall2_nil _))))
    as (_ & H2 & H3 & H4).
  split; [exact H2|]. split; [exact H3|]. exact (H4 (rendered null) corner).
Defined.

Lemma single_cell_never_hits_itself_witness :
  reachable Neon (run Neon [Click_reset corner] (mount None))
  /\ length (snakeRef (run Neon [Click_reset corner] (mount None))) = 1%nat
  /\ selfCheck null (candidate Neon null (run Neon [Click_reset corner] (mount None)))
       (snakeRef (run Neon [Click_reset corner] (mount None))) = false.
Proof.
  assert (Hr : reachable Neon (run Neon [Click_reset corner] (mount None)))
    by (exists None, [Click_reset corner]; reflexivity).
  split; [exact Hr|]. split; [reflexivity|].
  destruct (single_cell_never_hits_itself Neon (rendered null) corner _ Hr)
    as (_ & _ & _ & _ & H).
  apply H. reflexivity.
Defined.

Lemma spawn_cell_and_kind_witness :
  Number.is_random (rand ghostly) = true
  /\ Number.is_random (rand_x ghostly) = true
  /\ Number.is_random (rand_y ghostly) = true
  /\ foodRef (spawnFood Neon ghostly ahead) = mkFood 11 10 GHOST
  /\ 0 <= food_x (foodRef (spawnFood Neon ghostly ahead)) < 30
  /\ Number.exceeds (rand ghostly) 85 100.
Proof.
  split; [reflexivity|]. split; [reflexivity|]. split; [reflexivity|].
  split; [vm_compute; reflexivity|].
  destruct (spawn_cell_and_kind Neon ghostly ahead eq_refl eq_refl eq_refl)
    as (_ & _ & _ & _ & H3 & _ & H5 & _).
  split; [exact H3|]. apply H5. vm_compute. reflexivity.
Defined.

Lemma spawned_food_ignores_snake_witness :
  Number.is_random (rand_x corner) = true
  /\ Number.is_random (rand_y corner) = true
  /\ fst (moveUpdate Neon (rendered null) corner ahead) = Moved true
  /\ foodRef (snd (moveUpdate Neon (rendered null) corner ahead)) = newFood Neon corner
  /\ newFood Neon corner = mkFood 0 0 NORMAL.
Proof.
  split; [reflexivity|]. split; [reflexivity|]. split; [reflexivity|].
  destruct (spawned_food_ignores_snake Neon (rendered null) corner ahead eq_refl eq_refl)
    as (_ & H & _).
  split; [apply H; reflexivity | vm_compute; reflexivity].
Defined.

(** * Further properties *)

(** ** Runs *)

Lemma handle_step (v : Variant) (e : Event) (w : World) :
  handle v e w = commit (step v e w).
Proof. reflexivity. Qed.

Lemma run_app (v : Variant) (es es' : list Event) (w : World) :
  run v (es ++ es') w = run v es' (run v es w).
Proof.
  revert w. induction es as [|e es IH]; intros w; [reflexivity|].
  cbn [app run]. apply IH.
Qed.

Lemma reachable_handle (v : Variant) (e : Event) (w : World) :
  reachable v w -> reachable v (handle v e w).
Proof.
  intros (stored & es & ->). exists stored, (es ++ [e]). now rewrite run_app.
Qed.

Lemma reachable_run (v : Variant) (es : list Event) (w : World) :
  reachable v w -> reachable v (run v es w).
Proof.
  revert w. induction es as [|e es IH]; intros w H; [exact H|].
  cbn [run]. apply IH. now apply reachable_handle.
Qed.

(** Induction over the handlers that lead to a state. *)
Lemma reachable_ind (v : Variant) (P : World -> Prop) :
  (forall stored, P (mount stored)) ->
  (forall e w, reachable v w -> P w -> P (handle v e w)) ->
  forall w, reachable v w -> P w.
Proof.
  intros H0 Hstep w (stored & es & ->).
  assert (H : forall es w, reachable v w -> P w -> P (run v es w)).
  { clear es. induction es as [|e es IH]; intros w Hr Hw; [exact Hw|].
    cbn [run]. apply IH; [now apply reachable_handle | now apply Hstep]. }
  apply H; [exists stored, []; reflexivity | apply H0].
Qed.

(** The four ways an update can end, with the state each leaves. *)
Lemma moveUpdate_outcomes (v : Variant) (r : Render) (d : Draws) (w : World) :
  let w1 := set_directionRef (nextDirectionRef w) w in
  (snakeRef w = [] /\ moveUpdate v r d w = (TypeError, w1))
  \/ (snakeRef w <> [] /\ moveUpdate v r d w = (Died, gameOver r w1))
  \/ (exists c, snakeRef w <> []
        /\ wallCheck v (r_activePowerUp r) (rawHead w) = Some c
        /\ selfCheck (r_activePowerUp r) c (snakeRef w) = false
        /\ onFood c (foodRef w) = true
        /\ moveUpdate v r d w =
           (Moved true,
            set_snakeRef (c :: snakeRef w)
              (spawnFood v d
                 (triggerPowerUps (food_type (foodRef w))
                    (setScore (fun s => s + FOOD_POINTS v) w1)))))
  \/ (exists c, snakeRef w <> []
        /\ wallCheck v (r_activePowerUp r) (rawHead w) = Some c
        /\ selfCheck (r_activePowerUp r) c (snakeRef w) = false
        /\ onFood c (foodRef w) = false
        /\ moveUpdate v r d w =
           (Moved false, set_snakeRef (removelast (c :: snakeRef w)) w1)).
Proof.
  cbn zeta. destruct (snakeRef w) as [|head rest] eqn:Hs.
  - left. split; [reflexivity|]. unfold moveUpdate. cbn [snakeRef set_directionRef].
    now rewrite Hs.
  - right. rewrite (moveUpdate_cases v r d w head rest Hs). cbn zeta. rewrite !Hs.
    destruct (wallCheck v (r_activePowerUp r) (rawHead w)) as [c|];
      [|left; split; [discriminate | reflexivity]].
    destruct (selfCheck (r_activePowerUp r) c (head :: rest)) eqn:Hself;
      [left; split; [discriminate | reflexivity]|].
    right. destruct (onFood c (foodRef w)) eqn:Hf; [left | right];
      exists c; repeat split; auto; discriminate.
Qed.

(** ** What an update does to score and power-up *)

Lemma gameOver_cells (r : Render) (w : World) :
  score (gameOver r w) = score w
  /\ activePowerUp (gameOver r w) = activePowerUp w
  /\ powerUpTimeout (gameOver r w) = powerUpTimeout w
  /\ gameState (gameOver r w) = GAME_OVER.
Proof. unfold gameOver. destruct (r_score r >? r_highScore r); cbn; auto. Qed.

Lemma triggerPowerUps_cells (t : FoodType) (w : World) :
  score (triggerPowerUps t w) = score w
  /\ highScore (triggerPowerUps t w) = highScore w
  /\ localStorage (triggerPowerUps t w) = localStorage w
  /\ confetti (triggerPowerUps t w) = confetti w
  /\ loopRender (triggerPowerUps t w) = loopRender w
  /\ activePowerUp (triggerPowerUps t w) = afterEating t (activePowerUp w)
  /\ powerUpTimeout (triggerPowerUps t w)
     = match t with NORMAL => powerUpTimeout w | _ => true end.
Proof. destruct t; cbn; repeat split. Qed.


(** X2. An update changes the power-up only by eating: after [Moved true]
    on a GHOST or WRAP food that power-up is the active one, whatever was
    active before, and its timer is pending; a NORMAL food, a plain move
    and death leave power-up and timer as they were. *)
Theorem eating_sets_power_up (v : Variant) (r : Render) (d : Draws) (w : World) :
  activePowerUp (snd (moveUpdate v r d w))
  = match fst (moveUpdate v r d w) with
    | Moved true => afterEating (food_type (foodRef w)) (activePowerUp w)
    | _ => activePowerUp w
    end
  /\ powerUpTimeout (snd (moveUpdate v r d w))
     = match fst (moveUpdate v r d w), food_type (foodRef w) with
       | Moved true, (GHOST | WRAP) => true
       | _, _ => powerUpTimeout w
       end.
Proof.
  destruct (moveUpdate_outcomes v r d w)
    as [(_ & ->) | [(_ & ->) | [(c & _ & _ & _ & _ & ->) | (c & _ & _ & _ & _ & ->)]]];
    cbn [fst snd].
  - split; reflexivity.
  - destruct (gameOver_cells r (set_directionRef (nextDirectionRef w) w))
      as (_ & -> & -> & _). split; reflexivity.
  - cbn [set_snakeRef activePowerUp powerUpTimeout spawnFood set_foodRef].
    destruct (triggerPowerUps_cells (food_type (foodRef w))
                (setScore (fun s => s + FOOD_POINTS v)
                   (set_directionRef (nextDirectionRef w) w)))
      as (_ & _ & _ & _ & _ & -> & ->).
    destruct (food_type (foodRef w)); split; reflexivity.
  - split; reflexivity.
Qed.


(** ** What a handler does *)

(** Every handler leaves the state alone, overwrites the buffered direction
    with a command off the axis of the active direction, resets, toggles the
    pause, runs one update of the installed loop, or expires the power-up. *)
Lemma step_cases (v : Variant) (e : Event) (w : World) :
  step v e w = w
  \/ (exists c, step v e w = set_nextDirectionRef (vector c) w
        /\ sameAxis (vector c) (directionRef w) = false)
  \/ (exists d, draws_of e = Some d /\ gameState w <> PLAYING
        /\ step v e w = resetGame v d w)
  \/ (v = Dashboard /\ step v e w = togglePause w)
  \/ (exists d, e = Frame d /\ r_gameState (loopRender w) = PLAYING
        /\ step v e w = snd (moveUpdate v (loopRender w) d w))
  \/ (e = Timeout /\ powerUpTimeout w = true
        /\ step v e w = set_powerUpTimeout false (setActivePowerUp null w)).
Proof.
  assert (Hdir : forall c (Q : Prop),
    handleDirectionChange (vector c) w = w
    \/ (exists c', handleDirectionChange (vector c) w = set_nextDirectionRef (vector c') w
          /\ sameAxis (vector c') (directionRef w) = false)
    \/ Q).
  { intros c Q. rewrite handleDirectionChange_spec.
    destruct (sameAxis (vector c) (directionRef w)) eqn:Hs; [now left|].
    right; left. now exists c. }
  destruct e as [d | | k d | c | d | ]; unfold step.
  - destruct (GameState_eqb (gameState w) PLAYING) eqn:Hg; [now left|].
    right; right; left. exists d. repeat split. intros E. rewrite E in Hg. discriminate.
  - destruct v; [now left|]. right; right; right; left. now split.
  - destruct v; cbn [handleKeyDown].
    + destruct (GameState_eqb (gameState w) PLAYING) eqn:Hg.
      * assert (Hp : gameState w = PLAYING) by (destruct (gameState w); try discriminate; reflexivity).
        destruct k;
          try (unfold handleKeyDown_Neon; rewrite Hg; now left);
          [ change ArrowUp with (key_of Up) | change ArrowDown with (key_of Down)
          | change ArrowLeft with (key_of Left) | change ArrowRight with (key_of Right) ];
          rewrite (handleKeyDown_Neon_spec _ w Hp); apply Hdir.
      * left. unfold handleKeyDown_Neon. now rewrite Hg.
    + unfold handleKeyDown_Dashboard.
      destruct k;
        try (destruct (negb (GameState_eqb (gameState w) PLAYING)); [now left|]);
        try apply Hdir; try now left.
      destruct (gameState w) eqn:Hg.
      * right; right; left. exists d. repeat split. discriminate.
      * right; right; right; left. now split.
      * right; right; right; left. now split.
      * right; right; left. exists d. repeat split. discriminate.
  - destruct v; [now left | apply Hdir].
  - destruct (GameState_eqb (r_gameState (loopRender w)) PLAYING) eqn:Hg; [|now left].
    right; right; right; right; left. exists d. repeat split.
    destruct (r_gameState (loopRender w)); try discriminate; reflexivity.
  - destruct (powerUpTimeout w) eqn:Ht; [|now left].
    right; right; right; right; right. repeat split.
Qed.

Lemma commit_rest (w : World) :
  powerUpTimeout (commit w) = powerUpTimeout w
  /\ localStorage (commit w) = localStorage w
  /\ confetti (commit w) = confetti w
  /\ (loopRender (commit w) = loopRender w \/ loopRender (commit w) = render w).
Proof. unfold commit. destruct (_ && _); cbn; auto. Qed.

(** ** Invariants of the state cells *)

(** X4. In every reachable state a power-up is active exactly while the
    callback scheduled by [activatePowerUp] is pending. *)
Theorem power_up_iff_timer (v : Variant) (w : World) :
  reachable v w ->
  (powerUpTimeout w = true <-> activePowerUp w <> null).
Proof.
  revert w. apply reachable_ind.
  - intros stored. cbn. split; [discriminate | congruence].
  - intros e w _ IH. rewrite handle_step.
    destruct (commit_refs (step v e w)) as (_ & _ & _ & _ & _ & _ & _ & ->).
    destruct (commit_rest (step v e w)) as (-> & _).
    destruct (step_cases v e w)
      as [-> | [(c & -> & _) | [(d & _ & _ & ->) | [(_ & ->) | [(d & _ & _ & ->) | (_ & _ & ->)]]]]].
    + exact IH.
    + exact IH.
    + cbn. split; [discriminate | congruence].
    + unfold togglePause. destruct (gameState w); exact IH.
    + destruct (moveUpdate_outcomes v (loopRender w) d w)
        as [(_ & ->) | [(_ & ->) | [(c & _ & _ & _ & _ & ->) | (c & _ & _ & _ & _ & ->)]]];
        cbn [snd].
      * exact IH.
      * destruct (gameOver_cells (loopRender w) (set_directionRef (nextDirectionRef w) w))
          as (_ & -> & -> & _). exact IH.
      * cbn [set_snakeRef activePowerUp powerUpTimeout spawnFood set_foodRef].
        destruct (triggerPowerUps_cells (food_type (foodRef w))
                    (setScore (fun s => s + FOOD_POINTS v)
                       (set_directionRef (nextDirectionRef w) w)))
          as (_ & _ & _ & _ & _ & -> & ->).
        destruct (food_type (foodRef w)); cbn;
          [exact IH | split; [discriminate | reflexivity] | split; [discriminate | reflexivity]].
      * exact IH.
    + cbn. split; [discriminate | congruence].
Qed.

Lemma step_loopRender (v : Variant) (e : Event) (w : World) :
  loopRender (step v e w) = loopRender w.
Proof.
  destruct (step_cases v e w)
    as [-> | [(c & -> & _) | [(d & _ & _ & ->) | [(_ & ->) | [(d & _ & _ & ->) | (_ & _ & ->)]]]]];
    try reflexivity.
  - unfold togglePause. destruct (gameState w); reflexivity.
  - destruct (moveUpdate_outcomes v (loopRender w) d w)
      as [(_ & ->) | [(_ & ->) | [(c & _ & _ & _ & _ & ->) | (c & _ & _ & _ & _ & ->)]]];
      cbn [snd]; try reflexivity.
    + unfold gameOver. destruct (_ >? _); reflexivity.
    + cbn [set_snakeRef loopRender spawnFood set_foodRef].
      now destruct (triggerPowerUps_cells (food_type (foodRef w))
                      (setScore (fun s => s + FOOD_POINTS v)
                         (set_directionRef (nextDirectionRef w) w)))
        as (_ & _ & _ & _ & -> & _).
Qed.

Lemma reachable_ledger (v : Variant) (w : World) : reachable v w -> ledger w.
Proof.
  revert w. apply reachable_ind.
  - intros stored. unfold ledger. cbn. repeat split. lia.
  - intros e w _ (L1 & L2 & L3 & L4 & L5). rewrite handle_step.
    assert (Hlr := step_loopRender v e w).
    assert (Hpts : 0 < FOOD_POINTS v) by (destruct v; reflexivity).
    (* what the handler leaves, and what survives when the effect stays *)
    assert (H : highScore (step v e w) = storedHighScore (localStorage (step v e w))
                /\ (gameState (step v e w) = r_gameState (loopRender w) ->
                    highScore (step v e w) = highScore w
                    /\ score w <= score (step v e w))).
    { destruct (step_cases v e w)
        as [-> | [(c & -> & _) | [(d & _ & Hg & ->) | [(_ & ->) | [(d & _ & Hg & ->) | (_ & _ & ->)]]]]].
      - split; [exact L5 | intros _; split; [reflexivity | lia]].
      - split; [exact L5 | intros _; split; [reflexivity | cbn; lia]].
      - split; [exact L5|]. cbn. intros E. congruence.
      - unfold togglePause.
        destruct (gameState w); (split; [exact L5 | intros _; split; [reflexivity | cbn; lia]]).
      - destruct (moveUpdate_outcomes v (loopRender w) d w)
          as [(_ & ->) | [(_ & ->) | [(c & _ & _ & _ & _ & ->) | (c & _ & _ & _ & _ & ->)]]];
          cbn [snd].
        + split; [exact L5 | intros _; split; [reflexivity | cbn; lia]].
        + unfold gameOver. destruct (_ >? _); cbn; (split; [auto | intros E; congruence]).
        + cbn [set_snakeRef highScore localStorage score gameState spawnFood set_foodRef].
          destruct (triggerPowerUps_cells (food_type (foodRef w))
                      (setScore (fun s => s + FOOD_POINTS v)
                         (set_directionRef (nextDirectionRef w) w)))
            as (-> & -> & -> & _).
          split; [exact L5 | intros _; split; [reflexivity | cbn; lia]].
        + split; [exact L5 | intros _; split; [reflexivity | cbn; lia]].
      - split; [exact L5 | intros _; split; [reflexivity | cbn; lia]]. }
    destruct H as [Hst Hkeep].
    destruct (commit_refs (step v e w)) as (_ & _ & _ & _ & _ & Cs & Ch & _).
    destruct (commit_rest (step v e w)) as (_ & Cl & _ & _).
    unfold ledger. split; [apply commit_synced|]. split; [apply commit_synced|].
    rewrite Cs, Ch, Cl. unfold commit.
    destruct (GameState_eqb (gameState (step v e w)) (r_gameState (loopRender (step v e w))))
      eqn:Hg; cbn [andb].
    + destruct (PowerUpType_eqb _ _); cbn [loopRender set_loopRender render r_highScore r_score].
      * rewrite Hlr in *.
        assert (E : gameState (step v e w) = r_gameState (loopRender w))
          by (destruct (gameState (step v e w)), (r_gameState (loopRender w));
              try discriminate; reflexivity).
        destruct (Hkeep E) as [K1 K2].
        split; [congruence|]. split; [lia | exact Hst].
      * split; [reflexivity|]. split; [lia | exact Hst].
    + cbn. split; [reflexivity|]. split; [lia | exact Hst].
Qed.

(** X5. In every reachable state the installed loop reads the current
    [gameState], [activePowerUp] and [highScore]; the score it reads may lag
    behind the current score but is never ahead of it. *)
Theorem loop_reads_current_state (v : Variant) (w : World) :
  reachable v w ->
  r_gameState (loopRender w) = gameState w
  /\ r_activePowerUp (loopRender w) = activePowerUp w
  /\ r_highScore (loopRender w) = highScore w
  /\ r_score (loopRender w) <= score w.
Proof.
  intros Hr. destruct (reachable_ledger v w Hr) as (L1 & L2 & L3 & L4 & _).
  repeat split; assumption.
Qed.



(** X7. The game ends only in the loop: a handler leaves the state
    GAME_OVER only if it was GAME_OVER before, or if it is an animation
    frame of a game in play whose update ends as [Died]. *)
Theorem game_ends_only_by_dying (v : Variant) (e : Event) (w : World) :
  reachable v w ->
  gameState (handle v e w) = GAME_OVER ->
  gameState w = GAME_OVER
  \/ exists d, e = Frame d /\ gameState w = PLAYING
       /\ fst (moveUpdate v (loopRender w) d w) = Died.
Proof.
  intros Hr. destruct (reachable_ledger v w Hr) as (L1 & _). rewrite handle_step.
  destruct (commit_refs (step v e w)) as (_ & _ & _ & _ & -> & _).
  destruct (step_cases v e w)
    as [-> | [(c & -> & _) | [(d & _ & _ & ->) | [(_ & ->) | [(d & -> & Hg & ->) | (_ & _ & ->)]]]]];
    try (intros Hgo; left; exact Hgo); try (cbn; discriminate).
  - unfold togglePause. destruct (gameState w) eqn:Hg; cbn [gameState setGameState];
      intros Hgo; try discriminate; left; congruence.
  - destruct (moveUpdate_outcomes v (loopRender w) d w)
      as [(_ & H) | [(_ & H) | [(c & _ & _ & _ & _ & H) | (c & _ & _ & _ & _ & H)]]];
      rewrite H; cbn [fst snd].
    + intros Hgo; left; exact Hgo.
    + intros _. right. exists d. split; [reflexivity|]. split; [congruence|]. now rewrite H.
    + cbn [set_snakeRef gameState spawnFood set_foodRef].
      destruct (triggerPowerUps_refs (food_type (foodRef w))
                  (setScore (fun s => s + FOOD_POINTS v)
                     (set_directionRef (nextDirectionRef w) w)))
        as (_ & _ & _ & _ & ->).
      intros Hgo; left; exact Hgo.
    + intros Hgo; left; exact Hgo.
Qed.

(** ** Sessions: start, pause, rest *)

(** X8. Outside a game in play nothing moves: in a reachable state that
    is not PLAYING every handler leaves body, food, score and active
    direction as they are, unless it resets the game, and then the state is
    that of a fresh session.  In particular animation frames do nothing
    while the game is paused, not started or over. *)
Theorem idle_outside_play (v : Variant) (e : Event) (w : World) :
  reachable v w ->
  gameState w <> PLAYING ->
  (snakeRef (handle v e w) = snakeRef w
   /\ foodRef (handle v e w) = foodRef w
   /\ score (handle v e w) = score w
   /\ directionRef (handle v e w) = directionRef w)
  \/ (exists d, draws_of e = Some d /\ started v d (handle v e w)).
Proof.
  intros Hr Hg. destruct (reachable_ledger v w Hr) as (L1 & _). rewrite handle_step.
  unfold started.
  destruct (commit_refs (step v e w)) as (-> & -> & -> & -> & -> & -> & _ & ->).
  destruct (commit_rest (step v e w)) as (-> & _).
  destruct (step_cases v e w)
    as [-> | [(c & -> & _) | [(d & Hd & _ & ->) | [(_ & ->) | [(d & _ & Hp & ->) | (_ & _ & ->)]]]]];
    try (left; repeat split; reflexivity).
  - right. exists d. split; [exact Hd|]. repeat split; reflexivity.
  - left. unfold togglePause. destruct (gameState w); repeat split.
  - congruence.
Qed.

(** X9. A reset outside play starts a session: the state [resetGame]
    leaves, with the loop installed anew, reading score 0 and the current
    high score; high score, storage and confetti are not touched. *)
Theorem reset_starts_session (v : Variant) (d : Draws) (w : World) :
  reachable v w ->
  gameState w <> PLAYING ->
  started v d (handle v (Click_reset d) w)
  /\ loopRender (handle v (Click_reset d) w) = mkRender PLAYING 0 (highScore w) null
  /\ highScore (handle v (Click_reset d) w) = highScore w
  /\ localStorage (handle v (Click_reset d) w) = localStorage w
  /\ confetti (handle v (Click_reset d) w) = confetti w.
Proof.
  intros Hr Hg. destruct (reachable_ledger v w Hr) as (L1 & _).
  destruct w as [gs sc hs ap sn di nd fo pt ls cf [rg rs rh ra]].
  cbn [loopRender r_gameState gameState] in L1, Hg. subst rg. unfold started.
  destruct gs; try congruence; repeat split; reflexivity.
Qed.

(** X10. [togglePause] undoes itself.  In the second copy, pausing and
    resuming a game in play changes nothing but the loop installed: the
    new one reads the current score. *)
Theorem pause_resume (w : World) :
  togglePause (togglePause w) = w
  /\ (reachable Dashboard w -> gameState w = PLAYING ->
      gameState (handle Dashboard Click_pause w) = PAUSED
      /\ run Dashboard [Click_pause; Click_pause] w = set_loopRender (render w) w
      /\ r_score (loopRender (run Dashboard [Click_pause; Click_pause] w)) = score w).
Proof.
  split.
  - destruct w as [gs sc hs ap sn di nd fo pt ls cf lr]. destruct gs; reflexivity.
  - intros Hr Hg. destruct (reachable_ledger Dashboard w Hr) as (L1 & _).
    destruct w as [gs sc hs ap sn di nd fo pt ls cf [rg rs rh ra]].
    cbn [loopRender r_gameState gameState] in L1, Hg. subst rg. subst gs.
    repeat split; reflexivity.
Qed.

(** ** Invariants of snake, food and directions *)

Lemma Forall_removelast {A : Type} (P : A -> Prop) (l : list A) :
  Forall P l -> Forall P (removelast l).
Proof.
  induction l as [|a [|b l] IH]; intros H; cbn [removelast]; [exact H | constructor |].
  inversion H; subst. constructor; [assumption | now apply IH].
Qed.


(** The body after an update: as before, or with the new head in front,
    the last cell dropped unless the food was eaten. *)
Lemma moveUpdate_body (v : Variant) (r : Render) (d : Draws) (w : World) :
  snakeRef (snd (moveUpdate v r d w)) = snakeRef w
  \/ exists c, wallCheck v (r_activePowerUp r) (rawHead w) = Some c
       /\ selfCheck (r_activePowerUp r) c (snakeRef w) = false
       /\ snakeRef w <> []
       /\ ((fst (moveUpdate v r d w) = Moved true
            /\ snakeRef (snd (moveUpdate v r d w)) = c :: snakeRef w)
           \/ (fst (moveUpdate v r d w) = Moved false
               /\ snakeRef (snd (moveUpdate v r d w)) = removelast (c :: snakeRef w))).
Proof.
  destruct (moveUpdate_outcomes v r d w)
    as [(_ & ->) | [(_ & ->) | [(c & Hne & Hw & Hs & _ & ->) | (c & Hne & Hw & Hs & _ & ->)]]];
    cbn [fst snd].
  - now left.
  - left. now destruct (gameOver_refs r (set_directionRef (nextDirectionRef w) w)) as (-> & _).
  - right. exists c. repeat split; auto.
  - right. exists c. repeat split; auto.
Qed.

(** X11. In every reachable state every cell of the body lies in the
    grid. *)
Theorem snake_stays_in_grid (v : Variant) (w : World) :
  reachable v w -> inGrid v w.
Proof.
  revert w. apply reachable_ind.
  - intros stored. unfold inGrid. cbn [mount snakeRef]. repeat constructor.
    destruct v; reflexivity.
  - intros e w Hr IH. destruct (reachable_wellFormed v w Hr) as (Hne & Hin & _ & Hn).
    rewrite handle_step. unfold inGrid in *.
    destruct (commit_refs (step v e w)) as (-> & _).
    destruct (step_cases v e w)
      as [-> | [(c & -> & _) | [(d & _ & _ & ->) | [(_ & ->) | [(d & _ & _ & ->) | (_ & _ & ->)]]]]];
      try exact IH.
    + change (snakeRef (resetGame v d w)) with (RESET_SNAKE v).
      destruct v; repeat constructor.
    + unfold togglePause. destruct (gameState w); exact IH.
    + destruct (moveUpdate_body v (loopRender w) d w)
        as [-> | (c & Hw & _ & _ & [(_ & ->) | (_ & ->)])]; [exact IH | |].
      * constructor; [|exact IH].
        unfold rawHead in Hw. eapply wallCheck_inBounds; eauto.
      * apply Forall_removelast. constructor; [|exact IH].
        unfold rawHead in Hw. eapply wallCheck_inBounds; eauto.
Qed.

Lemma step_food (v : Variant) (e : Event) (w : World) :
  foodRef (step v e w) = foodRef w
  \/ exists d, draws_of e = Some d /\ foodRef (step v e w) = newFood v d.
Proof.
  destruct (step_cases v e w)
    as [-> | [(c & -> & _) | [(d & Hd & _ & ->) | [(_ & ->) | [(d & -> & _ & ->) | (_ & _ & ->)]]]]];
    try (now left).
  - right. exists d. split; [exact Hd | reflexivity].
  - left. unfold togglePause. destruct (gameState w); reflexivity.
  - destruct (moveUpdate_outcomes v (loopRender w) d w)
      as [(_ & ->) | [(_ & ->) | [(c & _ & _ & _ & _ & ->) | (c & _ & _ & _ & _ & ->)]]];
      cbn [snd]; try (now left).
    + left. now destruct (gameOver_refs (loopRender w) (set_directionRef (nextDirectionRef w) w))
        as (_ & -> & _).
    + right. exists d. split; reflexivity.
Qed.

(** X12. Along every run whose events carry numbers that [Math.random()]
    may return, the food lies in the grid. *)
Theorem food_stays_in_grid (v : Variant) (stored : option Z) (es : list Event) :
  Forall (fun e => validEvent e = true) es ->
  inBounds v (cell (foodRef (run v es (mount stored)))) = true.
Proof.
  assert (H : forall es w, Forall (fun e => validEvent e = true) es ->
                inBounds v (cell (foodRef w)) = true ->
                inBounds v (cell (foodRef (run v es w))) = true).
  { clear es. induction es as [|e es IH]; intros w Hes Hw; [exact Hw|].
    inversion Hes as [|e' es' He Hes']; subst. cbn [run]. apply IH; [exact Hes'|].
    rewrite handle_step. destruct (commit_refs (step v e w)) as (_ & -> & _).
    destruct (step_food v e w) as [-> | (d & Hd & ->)]; [exact Hw|].
    unfold validEvent in He. rewrite Hd in He. unfold randomDraws in He.
    apply andb_true_iff in He. destruct He as [He Hy].
    apply andb_true_iff in He. destruct He as [_ Hx].
    now apply newFood_inBounds. }
  intros Hes. apply H; [exact Hes|]. destruct v; reflexivity.
Qed.

(** X13. Once a game has been started, the score is the points of one food
    times the number of cells the body has gained over the body
    [resetGame] installs: every food eaten is one cell and one award, and
    nothing else changes either. *)
Theorem score_counts_growth (v : Variant) (w : World) :
  reachable v w ->
  gameState w <> START ->
  score w = FOOD_POINTS v
            * (Z.of_nat (length (snakeRef w)) - Z.of_nat (length (RESET_SNAKE v))).
Proof.
  revert w.
  apply (reachable_ind v
           (fun w => gameState w <> START ->
                     score w = FOOD_POINTS v
                               * (Z.of_nat (length (snakeRef w))
                                  - Z.of_nat (length (RESET_SNAKE v))))).
  - intros stored. cbn [mount gameState]. congruence.
  - intros e w Hr IH. destruct (reachable_ledger v w Hr) as (L1 & _).
    rewrite handle_step.
    destruct (commit_refs (step v e w)) as (-> & _ & _ & _ & -> & -> & _).
    destruct (step_cases v e w)
      as [-> | [(c & -> & _) | [(d & _ & _ & ->) | [(_ & ->) | [(d & _ & Hp & ->) | (_ & _ & ->)]]]]];
      try exact IH.
    + intros _. change (snakeRef (resetGame v d w)) with (RESET_SNAKE v).
      change (score (resetGame v d w)) with 0. lia.
    + unfold togglePause. destruct (gameState w) eqn:Hg; cbn [gameState score snakeRef setGameState];
        intros H; try congruence; apply IH; congruence.
    + assert (Hplay : gameState w <> START) by congruence.
      specialize (IH Hplay). intros _.
      destruct (moveUpdate_outcomes v (loopRender w) d w)
        as [(_ & ->) | [(_ & ->) | [(c & _ & _ & _ & _ & ->) | (c & _ & _ & _ & _ & ->)]]];
        cbn [snd].
      * exact IH.
      * destruct (gameOver_refs (loopRender w) (set_directionRef (nextDirectionRef w) w))
          as (-> & _).
        destruct (gameOver_cells (loopRender w) (set_directionRef (nextDirectionRef w) w))
          as (-> & _).
        exact IH.
      * cbn [set_snakeRef snakeRef score spawnFood set_foodRef].
        destruct (triggerPowerUps_cells (food_type (foodRef w))
                    (setScore (fun s => s + FOOD_POINTS v)
                       (set_directionRef (nextDirectionRef w) w))) as (-> & _).
        cbn [score setScore set_directionRef length]. rewrite IH. lia.
      * cbn [set_snakeRef snakeRef score set_directionRef].
        rewrite length_removelast_cons. exact IH.
Qed.



(** X15. In every reachable state the body has a head: no update reads
    past the body and throws. *)
Theorem update_never_throws (v : Variant) (r : Render) (d : Draws) (w : World) :
  reachable v w ->
  snakeRef w <> [] /\ fst (moveUpdate v r d w) <> TypeError.
Proof.
  intros Hr. destruct (reachable_wellFormed v w Hr) as (Hne & _).
  split; [exact Hne|].
  destruct (moveUpdate_outcomes v r d w)
    as [(He & _) | [(_ & ->) | [(c & _ & _ & _ & _ & ->) | (c & _ & _ & _ & _ & ->)]]];
    [contradiction | discriminate ..].
Qed.

Lemma NoDup_removelast {A : Type} (l : list A) : NoDup l -> NoDup (removelast l).
Proof.
  intros H. destruct l as [|a l]; [exact H|].
  rewrite (app_removelast_last a (l := a :: l)) in H by discriminate.
  now apply NoDup_app_remove_r in H.
Qed.

(** X16. Without GHOST an update keeps the body free of repeated cells:
    the new head is admitted only if it is no cell of the body. *)
Theorem no_duplicates_without_ghost (v : Variant) (r : Render) (d : Draws) (w : World) :
  r_activePowerUp r <> PowerGHOST ->
  NoDup (snakeRef w) ->
  NoDup (snakeRef (snd (moveUpdate v r d w))).
Proof.
  intros Hp Hnd.
  destruct (moveUpdate_body v r d w)
    as [-> | (c & _ & Hs & _ & [(_ & ->) | (_ & ->)])]; [exact Hnd | |];
    assert (Hc : ~ In c (snakeRef w))
      by (unfold selfCheck in Hs; intros Hin; apply hitsSelf_In in Hin; rewrite Hin in Hs;
          destruct (r_activePowerUp r); try discriminate; congruence).
  - now constructor.
  - apply NoDup_removelast. now constructor.
Qed.

(** ** The wrap, cell by cell *)

(** X17. The wrap of the WRAP branch is a projection onto the grid: it
    fixes the cells of the grid and applying it twice is applying it once.
    One step beyond an edge, which is as far as an update goes, it is the
    remainder modulo the dimension; further to the left it is not: every
    negative column goes to the last column. *)
Theorem wrap_is_modulo_one_step (v : Variant) (p : Point) :
  wrap v (wrap v p) = wrap v p
  /\ (inBounds v p = true -> wrap v p = p)
  /\ (-1 <= x p <= GRID_WIDTH v -> x (wrap v p) = x p mod GRID_WIDTH v)
  /\ (-1 <= y p <= GRID_HEIGHT v -> y (wrap v p) = y p mod GRID_HEIGHT v)
  /\ (- GRID_WIDTH v <= x p < -1 -> x (wrap v p) <> x p mod GRID_WIDTH v).
Proof.
  destruct (wrap_any v p) as (W1 & W2 & W3 & W4 & W5 & W6 & W7).
  destruct (wrap_any v (wrap v p)) as (_ & _ & _ & _ & _ & V6 & V7).
  apply inBounds_iff in W1.
  split; [|split; [|split; [|split]]].
  - destruct (wrap v (wrap v p)) as [a b] eqn:E, (wrap v p) as [a' b'] eqn:E'.
    cbn [x y] in *. f_equal; [apply V6 | apply V7]; lia.
  - intros Hin. apply inBounds_iff in Hin.
    destruct (wrap v p) as [a b], p as [a' b']. cbn [x y] in *.
    f_equal; [apply W6 | apply W7]; lia.
  - intros H.
    assert (Hc : x p = -1 \/ x p = GRID_WIDTH v \/ 0 <= x p < GRID_WIDTH v) by lia.
    destruct Hc as [E | [E | E]].
    + rewrite W2 by lia. rewrite E. destruct v; reflexivity.
    + rewrite W3 by lia. rewrite E. destruct v; reflexivity.
    + rewrite W6 by lia. symmetry. apply Z.mod_small. exact E.
  - intros H.
    assert (Hc : y p = -1 \/ y p = GRID_HEIGHT v \/ 0 <= y p < GRID_HEIGHT v) by lia.
    destruct Hc as [E | [E | E]].
    + rewrite W4 by lia. rewrite E. destruct v; reflexivity.
    + rewrite W5 by lia. rewrite E. destruct v; reflexivity.
    + rewrite W7 by lia. symmetry. apply Z.mod_small. exact E.
  - intros H. rewrite W2 by lia.
    assert (Hm : x p mod GRID_WIDTH v = x p + GRID_WIDTH v).
    { symmetry. apply (Z.mod_unique (x p) (GRID_WIDTH v) (-1)); lia. }
    lia.
Qed.

(** ** Swipes *)

(** A finite number minus itself is [+0]. *)
Lemma sub_self (a : spec_float) :
  Number.finite a = true -> Swipe.sub a a = S754_zero false.
Proof.
  destruct a as [[|]| | |s m e]; try discriminate; intros _; try reflexivity.
  unfold Swipe.sub, SFsub. rewrite Z.sub_diag. reflexivity.
Qed.

(** X18. [handleTouchEnd] does nothing without a recorded start.
    Otherwise it either ignores the swipe and keeps the start, or forgets
    the start and hands exactly one of the four unit vectors to
    [handleDirectionChange]; so the active direction, the body, the food and
    the score are never touched, and a second touch end after a swipe that
    was taken does nothing.  A touch that ends where it started, at finite
    coordinates, is ignored. *)
Theorem swipe_issues_one_command
  (t t' : Swipe.TouchPoint) (s : option Swipe.TouchPoint) (w : World) :
  Swipe.handleTouchEnd t (None, w) = (None, w)
  /\ (Swipe.handleTouchEnd t (s, w) = (s, w)
      \/ exists c, Swipe.handleTouchEnd t (s, w)
                   = (None, handleDirectionChange (vector c) w))
  /\ directionRef (snd (Swipe.handleTouchEnd t (s, w))) = directionRef w
  /\ snakeRef (snd (Swipe.handleTouchEnd t (s, w))) = snakeRef w
  /\ foodRef (snd (Swipe.handleTouchEnd t (s, w))) = foodRef w
  /\ score (snd (Swipe.handleTouchEnd t (s, w))) = score w
  /\ (fst (Swipe.handleTouchEnd t (s, w)) = None ->
      Swipe.handleTouchEnd t' (Swipe.handleTouchEnd t (s, w))
      = Swipe.handleTouchEnd t (s, w))
  /\ (Number.finite (Swipe.clientX t) = true ->
      Number.finite (Swipe.clientY t) = true ->
      Swipe.handleTouchEnd t (Swipe.handleTouchStart t (s, w)) = (Some t, w)).
Proof.
  assert (Hcases : Swipe.handleTouchEnd t (s, w) = (s, w)
                   \/ exists c, Swipe.handleTouchEnd t (s, w)
                                = (None, handleDirectionChange (vector c) w)).
  { unfold Swipe.handleTouchEnd. cbn [fst snd]. destruct s as [s0|]; [|now left].
    destruct (_ && _); [now left|]. right.
    destruct (Number.gt (Swipe.abs _) (Swipe.abs _));
      [destruct (Number.gt _ Swipe.zero); [exists Right | exists Left]
      |destruct (Number.gt _ Swipe.zero); [exists Down | exists Up]]; reflexivity. }
  split; [reflexivity|]. split; [exact Hcases|].
  assert (Hkeep : forall c,
            directionRef (handleDirectionChange (vector c) w) = directionRef w
            /\ snakeRef (handleDirectionChange (vector c) w) = snakeRef w
            /\ foodRef (handleDirectionChange (vector c) w) = foodRef w
            /\ score (handleDirectionChange (vector c) w) = score w).
  { intros c. rewrite handleDirectionChange_spec. destruct (sameAxis _ _); repeat split. }
  destruct Hcases as [E | (c & E)]; rewrite E; cbn [fst snd].
  - repeat (split; [reflexivity|]). split.
    + intros ->. reflexivity.
    + intros Hx Hy. unfold Swipe.handleTouchStart, Swipe.handleTouchEnd. cbn [fst snd].
      rewrite (sub_self _ Hx), (sub_self _ Hy). reflexivity.
  - destruct (Hkeep c) as (K1 & K2 & K3 & K4).
    split; [exact K1|]. split; [exact K2|]. split; [exact K3|]. split; [exact K4|]. split.
    + intros _. reflexivity.
    + intros Hx Hy. unfold Swipe.handleTouchStart, Swipe.handleTouchEnd. cbn [fst snd].
      rewrite (sub_self _ Hx), (sub_self _ Hy). reflexivity.
Qed.

(** ** The two key handlers *)

(** X19. On every key but the space bar the key handlers of the two copies
    do the same: the four tests of the first copy against the direction
    read once are the two tests of [handleDirectionChange] of the second.
    The space bar does nothing in the first copy; in the second it resets
    the game before the start and when it is over, and toggles the pause
    otherwise. *)
Theorem key_handlers_agree (k : Key) (d : Draws) (w : World) :
  (k <> Space -> handleKeyDown Neon k d w = handleKeyDown Dashboard k d w)
  /\ handleKeyDown Neon Space d w = w
  /\ handleKeyDown Dashboard Space d w
     = match gameState w with
       | GAME_OVER | START => resetGame Dashboard d w
       | _ => togglePause w
       end.
Proof.
  split; [|split; [|reflexivity]].
  - intros Hk. unfold handleKeyDown, handleKeyDown_Neon, handleKeyDown_Dashboard.
    destruct k; try congruence;
      destruct (negb (GameState_eqb (gameState w) PLAYING)); try reflexivity;
      rewrite handleDirectionChange_spec; unfold sameAxis, vector;
      cbn [x y Z.eqb negb andb orb];
      [destruct (y (directionRef w) =? 0) | destruct (y (directionRef w) =? 0)
      |destruct (x (directionRef w) =? 0) | destruct (x (directionRef w) =? 0)];
      reflexivity.
  - unfold handleKeyDown, handleKeyDown_Neon.
    destruct (negb (GameState_eqb (gameState w) PLAYING)); reflexivity.
Qed.

(** ** The body as a path *)

Lemma chain_removelast (v : Variant) (l : list Point) :
  chain v l -> chain v (removelast l).
Proof.
  induction l as [|a [|b t] IH]; cbn [removelast chain]; auto.
  intros [H1 H2]. specialize (IH H2). cbn [removelast] in IH.
  destruct t as [|c t]; [exact I | split; [exact H1 | exact IH]].
Qed.

Lemma isUnit_is_vector (p : Point) : isUnit p = true -> exists c, p = vector c.
Proof.
  intros H. destruct (isUnit_cases p H) as [-> | [-> | [-> | ->]]];
    [exists Right | exists Left | exists Down | exists Up]; reflexivity.
Qed.

Lemma wallCheck_linked (v : Variant) (p : PowerUpType) (head dir c : Point) :
  isUnit dir = true ->
  wallCheck v p (advance head dir) = Some c -> linked v c head = true.
Proof.
  intros Hd Hw. destruct (isUnit_is_vector dir Hd) as [k ->].
  unfold linked. apply existsb_exists. exists k. split; [destruct k; cbn; auto|].
  apply orb_true_iff. unfold wallCheck in Hw.
  destruct p; [destruct (outOfBounds _ _); [discriminate|] | |
               destruct (outOfBounds _ _); [discriminate|]];
    inversion Hw; subst c; [left | right | left]; apply samePoint_eq; reflexivity.
Qed.

(** X20. In every reachable state the body is a path: every cell is one
    step from the cell behind it, as computed or wrapped at the edges. *)
Theorem body_is_a_path (v : Variant) (w : World) :
  reachable v w -> chain v (snakeRef w).
Proof.
  apply (reachable_ind v (fun w => chain v (snakeRef w))).
  - intros stored. exact I.
  - clear w. intros e w Hr IH.
    destruct (reachable_wellFormed v w Hr) as (Hne & _ & _ & Hn).
    rewrite handle_step.
    destruct (commit_refs (step v e w)) as (-> & _).
    destruct (step_cases v e w)
      as [-> | [(c & -> & _) | [(d & _ & _ & ->) | [(_ & ->) | [(d & _ & _ & ->) | (_ & _ & ->)]]]]].
    + exact IH.
    + exact IH.
    + destruct v; cbn; repeat split; reflexivity.
    + unfold togglePause. destruct (gameState w); exact IH.
    + destruct (moveUpdate_body v (loopRender w) d w)
        as [-> | (c & Hw & _ & _ & [(_ & ->) | (_ & ->)])]; [exact IH | |].
      * destruct (snakeRef w) as [|h t] eqn:Hs; [congruence|].
        split; [|exact IH].
        unfold rawHead in Hw. rewrite Hs in Hw. cbn [hd] in Hw.
        exact (wallCheck_linked v _ h _ c Hn Hw).
      * apply chain_removelast.
        destruct (snakeRef w) as [|h t] eqn:Hs; [congruence|].
        split; [|exact IH].
        unfold rawHead in Hw. rewrite Hs in Hw. cbn [hd] in Hw.
        exact (wallCheck_linked v _ h _ c Hn Hw).
    + exact IH.
Qed.

(** ** The high score when the game ends *)


(** ** When the loop is installed anew *)

(** X22. A handler run in a reachable state leaves the installed loop as
    it is when neither [gameState] nor [activePowerUp] changes, and
    otherwise installs the loop of the new render, which reads the current
    score. *)
Theorem loop_installed_on_change (v : Variant) (e : Event) (w : World) :
  reachable v w ->
  (gameState (handle v e w) = gameState w ->
   activePowerUp (handle v e w) = activePowerUp w ->
   loopRender (handle v e w) = loopRender w)
  /\ (gameState (handle v e w) <> gameState w
      \/ activePowerUp (handle v e w) <> activePowerUp w ->
      loopRender (handle v e w) = render (handle v e w)
      /\ r_score (loopRender (handle v e w)) = score (handle v e w)).
Proof.
  intros Hr.
  destruct (reachable_ledger v w Hr) as (Hg & Ha & _).
  rewrite handle_step.
  destruct (commit_refs (step v e w)) as (_ & _ & _ & _ & -> & _ & _ & ->).
  unfold commit. rewrite step_loopRender, Hg, Ha.
  destruct (gameState (step v e w)) eqn:E1, (gameState w) eqn:E2;
    destruct (activePowerUp (step v e w)) eqn:E3, (activePowerUp w) eqn:E4;
    cbn [GameState_eqb PowerUpType_eqb andb];
    (split; [intros; try reflexivity; try discriminate; try (cbn; apply step_loopRender)
            | intros [H | H]; try congruence; split; cbn; unfold render; cbn;
              rewrite ?E1, ?E3; reflexivity]).
Qed.

(** ** Commands while the game is paused *)

(** X23. While the second copy is paused the arrow keys are ignored, but
    the on-screen arrows and swipes are not: a command off the axis of the
    active direction is buffered, and the first update after the game is
    resumed commits it. *)
Theorem pointer_buffered_while_paused (k : Key) (c : Dir) (d : Draws) (w : World) :
  reachable Dashboard w ->
  gameState w = PAUSED ->
  (k <> Space -> handle Dashboard (KeyDown k d) w = w)
  /\ (sameAxis (vector c) (directionRef w) = false ->
      nextDirectionRef (handle Dashboard (Pointer c) w) = vector c
      /\ gameState (run Dashboard [Pointer c; Click_pause] w) = PLAYING
      /\ directionRef (run Dashboard [Pointer c; Click_pause; Frame d] w) = vector c).
Proof.
  intros Hr Hp.
  destruct (reachable_ledger Dashboard w Hr) as (Hg & Ha & _).
  split.
  - intros Hk. rewrite handle_step.
    assert (Hs : step Dashboard (KeyDown k d) w = w).
    { cbn [step handleKeyDown]. unfold handleKeyDown_Dashboard. rewrite Hp.
      destruct k; try reflexivity. congruence. }
    rewrite Hs. unfold commit. rewrite Hg, Ha.
    destruct (gameState w), (activePowerUp w); reflexivity.
  - intros Hx.
    assert (H1 : step Dashboard (Pointer c) w = set_nextDirectionRef (vector c) w).
    { cbn [step]. rewrite handleDirectionChange_spec, Hx. reflexivity. }
    set (w1 := handle Dashboard (Pointer c) w).
    assert (Hn1 : nextDirectionRef w1 = vector c).
    { unfold w1. rewrite handle_step.
      destruct (commit_refs (step Dashboard (Pointer c) w)) as (_ & _ & _ & -> & _).
      rewrite H1. reflexivity. }
    assert (Hg1 : gameState w1 = PAUSED).
    { unfold w1. rewrite handle_step.
      destruct (commit_refs (step Dashboard (Pointer c) w)) as (_ & _ & _ & _ & -> & _).
      rewrite H1. exact Hp. }
    set (w2 := handle Dashboard Click_pause w1).
    assert (Hg2 : gameState w2 = PLAYING).
    { unfold w2. rewrite handle_step.
      destruct (commit_refs (step Dashboard Click_pause w1)) as (_ & _ & _ & _ & -> & _).
      cbn [step]. unfold togglePause. rewrite Hg1. reflexivity. }
    assert (Hn2 : nextDirectionRef w2 = vector c).
    { unfold w2. rewrite handle_step.
      destruct (commit_refs (step Dashboard Click_pause w1)) as (_ & _ & _ & -> & _).
      cbn [step]. unfold togglePause. rewrite Hg1. exact Hn1. }
    assert (Hl2 : r_gameState (loopRender w2) = PLAYING).
    { unfold w2. rewrite handle_step.
      destruct (commit_synced (step Dashboard Click_pause w1)) as (-> & _).
      rewrite <- handle_step. exact Hg2. }
    split; [exact Hn1|]. split; [exact Hg2|].
    cbn [run]. fold w1. fold w2. rewrite handle_step.
    destruct (commit_refs (step Dashboard (Frame d) w2)) as (_ & _ & -> & _).
    cbn [step]. rewrite Hl2. cbn [GameState_eqb].
    rewrite moveUpdate_commits. exact Hn2.
Qed.

(** ** What an update does to body and food *)

(** X24. The body moves as a queue and the food stays until eaten: after
    [Moved false] the new head is in front and every other cell has taken
    the place of the one before it, the last cell given up; after
    [Moved true] the new head is in front of the whole old body and the food
    is the one [spawnFood] makes from the draws; otherwise body and food are
    as before. *)
Theorem body_advances (v : Variant) (r : Render) (d : Draws) (w : World) :
  snakeRef (snd (moveUpdate v r d w))
  = match fst (moveUpdate v r d w) with
    | Moved true => candidate v (r_activePowerUp r) w :: snakeRef w
    | Moved false => candidate v (r_activePowerUp r) w :: removelast (snakeRef w)
    | _ => snakeRef w
    end
  /\ foodRef (snd (moveUpdate v r d w))
     = match fst (moveUpdate v r d w) with
       | Moved true => newFood v d
       | _ => foodRef w
       end.
Proof.
  assert (Hc : forall c, wallCheck v (r_activePowerUp r) (rawHead w) = Some c ->
                         c = candidate v (r_activePowerUp r) w).
  { intros c. rewrite wallCheck_candidate.
    destruct (PowerUpType_eqb _ _); [|destruct (outOfBounds _ _)]; congruence. }
  destruct (moveUpdate_outcomes v r d w)
    as [(_ & ->) | [(_ & ->) | [(c & Hne & Hw & _ & _ & ->) | (c & Hne & Hw & _ & _ & ->)]]];
    cbn [fst snd].
  - split; reflexivity.
  - destruct (gameOver_refs r (set_directionRef (nextDirectionRef w) w)) as (-> & -> & _).
    split; reflexivity.
  - rewrite <- (Hc c Hw). split; [reflexivity|].
    unfold spawnFood. destruct (food_type (foodRef w)); reflexivity.
  - rewrite <- (Hc c Hw). split; [|reflexivity].
    cbn [snakeRef set_snakeRef]. destruct (snakeRef w) as [|h t]; [congruence|].
    reflexivity.
Qed.

(** ** The further theorems at concrete states *)

Lemma reachable_run_mount (v : Variant) (stored : option Z) (es : list Event) :
  reachable v (run v es (mount stored)).
Proof. exists stored, es; reflexivity. Qed.


Lemma power_up_iff_timer_witness :
  reachable Neon haunted
  /\ activePowerUp haunted = PowerGHOST
  /\ powerUpTimeout haunted = true.
Proof.
  assert (Hr : reachable Neon haunted) by apply reachable_run_mount.
  split; [exact Hr|]. split; [vm_compute; reflexivity|].
  apply (proj2 (power_up_iff_timer Neon haunted Hr)).
  vm_compute; discriminate.
Defined.

Lemma loop_reads_current_state_witness :
  reachable Neon midgame
  /\ score midgame = 10
  /\ r_score (loopRender midgame) = 0
  /\ r_score (loopRender midgame) <= score midgame
  /\ r_gameState (loopRender midgame) = gameState midgame.
Proof.
  assert (Hr : reachable Neon midgame) by apply reachable_run_mount.
  destruct (loop_reads_current_state Neon midgame Hr) as (H1 & _ & _ & H4).
  split; [exact Hr|]. split; [vm_compute; reflexivity|].
  split; [vm_compute; reflexivity|]. split; [exact H4 | exact H1].
Defined.


Lemma game_ends_only_by_dying_witness :
  reachable Neon midgame
  /\ gameState (handle Neon (Frame corner) midgame) = GAME_OVER
  /\ (gameState midgame = GAME_OVER
      \/ exists d, Frame corner = Frame d /\ gameState midgame = PLAYING
           /\ fst (moveUpdate Neon (loopRender midgame) d midgame) = Died).
Proof.
  assert (Hr : reachable Neon midgame) by apply reachable_run_mount.
  assert (Hgo : gameState (handle Neon (Frame corner) midgame) = GAME_OVER)
    by (vm_compute; reflexivity).
  split; [exact Hr|]. split; [exact Hgo|].
  exact (game_ends_only_by_dying Neon (Frame corner) midgame Hr Hgo).
Defined.

Lemma idle_outside_play_witness :
  reachable Neon over
  /\ gameState over <> PLAYING
  /\ ((snakeRef (handle Neon (Frame corner) over) = snakeRef over
       /\ foodRef (handle Neon (Frame corner) over) = foodRef over
       /\ score (handle Neon (Frame corner) over) = score over
       /\ directionRef (handle Neon (Frame corner) over) = directionRef over)
      \/ (exists d, draws_of (Frame corner) = Some d
                    /\ started Neon d (handle Neon (Frame corner) over))).
Proof.
  assert (Hr : reachable Neon over) by apply reachable_run_mount.
  assert (Hn : gameState over <> PLAYING) by (vm_compute; discriminate).
  split; [exact Hr|]. split; [exact Hn|].
  exact (idle_outside_play Neon (Frame corner) over Hr Hn).
Defined.

Lemma reset_starts_session_witness :
  reachable Neon over
  /\ gameState over <> PLAYING
  /\ started Neon ghostly (handle Neon (Click_reset ghostly) over)
  /\ loopRender (handle Neon (Click_reset ghostly) over)
     = mkRender PLAYING 0 (highScore over) null.
Proof.
  assert (Hr : reachable Neon over) by apply reachable_run_mount.
  assert (Hn : gameState over <> PLAYING) by (vm_compute; discriminate).
  destruct (reset_starts_session Neon ghostly over Hr Hn) as (H1 & H2 & _).
  split; [exact Hr|]. split; [exact Hn|]. split; [exact H1 | exact H2].
Defined.

Lemma pause_resume_witness :
  reachable Dashboard fresh
  /\ gameState fresh = PLAYING
  /\ gameState (handle Dashboard Click_pause fresh) = PAUSED
  /\ run Dashboard [Click_pause; Click_pause] fresh = set_loopRender (render fresh) fresh.
Proof.
  assert (Hr : reachable Dashboard fresh) by apply reachable_run_mount.
  assert (Hp : gameState fresh = PLAYING) by (vm_compute; reflexivity).
  destruct (pause_resume fresh) as (_ & H).
  destruct (H Hr Hp) as (H1 & H2 & _).
  split; [exact Hr|]. split; [exact Hp|]. split; [exact H1 | exact H2].
Defined.

Lemma snake_stays_in_grid_witness :
  reachable Neon midgame /\ inGrid Neon midgame.
Proof.
  assert (Hr : reachable Neon midgame) by apply reachable_run_mount.
  split; [exact Hr | exact (snake_stays_in_grid Neon midgame Hr)].
Defined.

Lemma food_stays_in_grid_witness :
  Forall (fun e => validEvent e = true) session_ghost
  /\ inBounds Neon (cell (foodRef (run Neon session_ghost (mount None)))) = true.
Proof.
  assert (Hv : Forall (fun e => validEvent e = true) session_ghost)
    by (apply Forall_forall; intros e He;
        destruct He as [<- | He]; [vm_compute; reflexivity|];
        apply repeat_spec in He; subst e; vm_compute; reflexivity).
  split; [exact Hv | exact (food_stays_in_grid Neon None session_ghost Hv)].
Defined.

Lemma score_counts_growth_witness :
  reachable Neon midgame
  /\ gameState midgame <> START
  /\ score midgame
     = FOOD_POINTS Neon
       * (Z.of_nat (length (snakeRef midgame)) - Z.of_nat (length (RESET_SNAKE Neon))).
Proof.
  assert (Hr : reachable Neon midgame) by apply reachable_run_mount.
  assert (Hn : gameState midgame <> START) by (vm_compute; discriminate).
  split; [exact Hr|]. split; [exact Hn|].
  exact (score_counts_growth Neon midgame Hr Hn).
Defined.


Lemma update_never_throws_witness :
  reachable Neon midgame
  /\ fst (moveUpdate Neon (loopRender midgame) corner midgame) <> TypeError.
Proof.
  assert (Hr : reachable Neon midgame) by apply reachable_run_mount.
  split; [exact Hr|].
  exact (proj2 (update_never_throws Neon (loopRender midgame) corner midgame Hr)).
Defined.

Lemma no_duplicates_without_ghost_witness :
  r_activePowerUp (rendered null) <> PowerGHOST
  /\ NoDup (snakeRef atEdge)
  /\ NoDup (snakeRef (snd (moveUpdate Neon (rendered null) corner atEdge)))
  /\ NoDup (snakeRef (snd (moveUpdate Neon (rendered PowerWRAP) corner atEdge))).
Proof.
  assert (Hg : r_activePowerUp (rendered null) <> PowerGHOST) by discriminate.
  assert (Hg' : r_activePowerUp (rendered PowerWRAP) <> PowerGHOST) by discriminate.
  assert (Hn : NoDup (snakeRef atEdge)).
  { apply NoDup_cons; [intros [H | []]; discriminate H|].
    apply NoDup_cons; [intros []|]. apply NoDup_nil. }
  split; [exact Hg|]. split; [exact Hn|].
  split; [exact (no_duplicates_without_ghost Neon _ corner atEdge Hg Hn)
         | exact (no_duplicates_without_ghost Neon _ corner atEdge Hg' Hn)].
Defined.

Lemma wrap_is_modulo_one_step_witness :
  -1 <= x (mkPoint (-1) 20) <= GRID_WIDTH Neon
  /\ -1 <= y (mkPoint (-1) 20) <= GRID_HEIGHT Neon
  /\ x (wrap Neon (mkPoint (-1) 20)) = x (mkPoint (-1) 20) mod GRID_WIDTH Neon
  /\ y (wrap Neon (mkPoint (-1) 20)) = y (mkPoint (-1) 20) mod GRID_HEIGHT Neon
  /\ - GRID_WIDTH Neon <= x (mkPoint (-7) 3) < -1
  /\ x (wrap Neon (mkPoint (-7) 3)) <> x (mkPoint (-7) 3) mod GRID_WIDTH Neon
  /\ inBounds Neon (mkPoint 4 4) = true
  /\ wrap Neon (mkPoint 4 4) = mkPoint 4 4.
Proof.
  assert (Hx : -1 <= x (mkPoint (-1) 20) <= GRID_WIDTH Neon) by (cbn; lia).
  assert (Hy : -1 <= y (mkPoint (-1) 20) <= GRID_HEIGHT Neon) by (cbn; lia).
  assert (Hf : - GRID_WIDTH Neon <= x (mkPoint (-7) 3) < -1) by (cbn; lia).
  assert (Hi : inBounds Neon (mkPoint 4 4) = true) by reflexivity.
  destruct (wrap_is_modulo_one_step Neon (mkPoint (-1) 20)) as (_ & _ & H3 & H4 & _).
  destruct (wrap_is_modulo_one_step Neon (mkPoint (-7) 3)) as (_ & _ & _ & _ & H5).
  destruct (wrap_is_modulo_one_step Neon (mkPoint 4 4)) as (_ & H2 & _).
  split; [exact Hx|]. split; [exact Hy|]. split; [exact (H3 Hx)|].
  split; [exact (H4 Hy)|]. split; [exact Hf|]. split; [exact (H5 Hf)|].
  split; [exact Hi | exact (H2 Hi)].
Defined.

Lemma swipe_issues_one_command_witness :
  Number.finite (Swipe.clientX (Swipe.at_ 100 140)) = true
  /\ Number.finite (Swipe.clientY (Swipe.at_ 100 140)) = true
  /\ Swipe.handleTouchEnd (Swipe.at_ 100 140)
       (Swipe.handleTouchStart (Swipe.at_ 100 140) (None, fresh))
     = (Some (Swipe.at_ 100 140), fresh)
  /\ fst (Swipe.handleTouchEnd (Swipe.at_ 100 140) (Some (Swipe.at_ 100 100), fresh)) = None
  /\ Swipe.handleTouchEnd (Swipe.at_ 300 100)
       (Swipe.handleTouchEnd (Swipe.at_ 100 140) (Some (Swipe.at_ 100 100), fresh))
     = Swipe.handleTouchEnd (Swipe.at_ 100 140) (Some (Swipe.at_ 100 100), fresh).
Proof.
  assert (Hx : Number.finite (Swipe.clientX (Swipe.at_ 100 140)) = true)
    by (vm_compute; reflexivity).
  assert (Hy : Number.finite (Swipe.clientY (Swipe.at_ 100 140)) = true)
    by (vm_compute; reflexivity).
  assert (Hn : fst (Swipe.handleTouchEnd (Swipe.at_ 100 140)
                      (Some (Swipe.at_ 100 100), fresh)) = None)
    by (vm_compute; reflexivity).
  destruct (swipe_issues_one_command (Swipe.at_ 100 140) (Swipe.at_ 300 100) None fresh)
    as (_ & _ & _ & _ & _ & _ & _ & H8).
  destruct (swipe_issues_one_command (Swipe.at_ 100 140) (Swipe.at_ 300 100)
              (Some (Swipe.at_ 100 100)) fresh)
    as (_ & _ & _ & _ & _ & _ & H7 & _).
  split; [exact Hx|]. split; [exact Hy|]. split; [exact (H8 Hx Hy)|].
  split; [exact Hn | exact (H7 Hn)].
Defined.

Lemma key_handlers_agree_witness :
  ArrowUp <> Space
  /\ handleKeyDown Neon ArrowUp corner ahead = handleKeyDown Dashboard ArrowUp corner ahead
  /\ nextDirectionRef (handleKeyDown Neon ArrowUp corner ahead) = mkPoint 0 (-1).
Proof.
  assert (Hk : ArrowUp <> Space) by discriminate.
  split; [exact Hk|].
  split; [exact (proj1 (key_handlers_agree ArrowUp corner ahead) Hk) | reflexivity].
Defined.

Lemma body_is_a_path_witness :
  reachable Neon midgame /\ chain Neon (snakeRef midgame).
Proof.
  assert (Hr : reachable Neon midgame) by apply reachable_run_mount.
  split; [exact Hr | exact (body_is_a_path Neon midgame Hr)].
Defined.


Lemma loop_installed_on_change_witness :
  reachable Neon over
  /\ (gameState (handle Neon (Click_reset corner) over) <> gameState over
      \/ activePowerUp (handle Neon (Click_reset corner) over) <> activePowerUp over)
  /\ loopRender (handle Neon (Click_reset corner) over)
     = render (handle Neon (Click_reset corner) over).
Proof.
  assert (Hr : reachable Neon over) by apply reachable_run_mount.
  assert (Hc : gameState (handle Neon (Click_reset corner) over) <> gameState over
               \/ activePowerUp (handle Neon (Click_reset corner) over)
                  <> activePowerUp over)
    by (left; vm_compute; discriminate).
  destruct (loop_installed_on_change Neon (Click_reset corner) over Hr) as (_ & H).
  split; [exact Hr|]. split; [exact Hc | exact (proj1 (H Hc))].
Defined.

Lemma pointer_buffered_while_paused_witness :
  reachable Dashboard paused
  /\ gameState paused = PAUSED
  /\ sameAxis (vector Up) (directionRef paused) = false
  /\ handle Dashboard (KeyDown ArrowUp corner) paused = paused
  /\ directionRef (run Dashboard [Pointer Up; Click_pause; Frame corner] paused) = vector Up.
Proof.
  assert (Hr : reachable Dashboard paused) by apply reachable_run_mount.
  assert (Hp : gameState paused = PAUSED) by (vm_compute; reflexivity).
  assert (Hx : sameAxis (vector Up) (directionRef paused) = false)
    by (vm_compute; reflexivity).
  destruct (pointer_buffered_while_paused ArrowUp Up corner paused Hr Hp) as (H1 & H2).
  destruct (H2 Hx) as (_ & _ & H3).
  split; [exact Hr|]. split; [exact Hp|]. split; [exact Hx|].
  split; [apply H1; discriminate | exact H3].
Defined.
